(** * PeeringDB MCP server: validation, dispatch and bulk processing

    A shallow embedding of the registry ([config/peeringdb-objects]), the
    validation utilities ([utils/validation]), the resource parameter parser
    ([resources/peeringdb-resources]), the HTTP client wrapper
    ([services/peeringdb-client]) and the tool handlers
    ([tools/peeringdb-tools]), followed by the properties of the
    specification that are stated about them.

    Conventions of the embedding:
    - a JavaScript string is a [string]: a sequence of 8-bit code units;
    - a JavaScript object used as a record ([Record<string, any>]) is a
      [gmap string _] of its own enumerable properties; [undefined] is the
      absence of a value ([None]);
    - values that cross the tool boundary are JSON values ([value]);
    - an object whose key order is observable (the [schemaFields] of
      [createObjectSchema], a [URLSearchParams]) is an association list;
    - exceptions are the left summand of a sum, and the handlers, which
      perform HTTP calls and sleep, live in a state-and-exception monad over
      the history of events. *)

From Stdlib Require Import ZArith QArith Qround Ascii String.
From stdpp Require Import gmap strings list fin_maps.

Set Warnings "-register-all".
Close Scope Q_scope.
Open Scope string_scope.
Open Scope Z_scope.
Open Scope list_scope.

(* ===================================================================== *)
(** ** JavaScript strings *)
(* ===================================================================== *)

Module JsString.

(** [s.startsWith(p)] *)
Definition startsWith (p s : string) : bool := String.prefix p s.

(** [s.includes(sub)] *)
Fixpoint includes (sub s : string) : bool :=
  if String.prefix sub s then true
  else match s with
       | EmptyString => false
       | String _ s' => includes sub s'
       end.

(** [s.endsWith(suf)] *)
Fixpoint endsWith (suf s : string) : bool :=
  if String.eqb s suf then true
  else match s with
       | EmptyString => false
       | String _ s' => endsWith suf s'
       end.

Fixpoint drop (n : nat) (s : string) : string :=
  match n, s with
  | O, _ => s
  | S n', String _ s' => drop n' s'
  | S _, EmptyString => EmptyString
  end.

(** [s.replace(pat, rep)] with a string pattern: the first occurrence. *)
Fixpoint replace (pat rep s : string) : string :=
  if String.prefix pat s then rep +:+ drop (String.length pat) s
  else match s with
       | EmptyString => EmptyString
       | String c s' => String c (replace pat rep s')
       end.

(** [toLowerCase] on 8-bit code units: A-Z, and the Latin-1 capitals
    U+00C0..U+00DE except the multiplication sign U+00D7. *)
Definition lower_char (c : ascii) : ascii :=
  let n := N_of_ascii c in
  if ((65 <=? n) && (n <=? 90))%N then ascii_of_N (n + 32)
  else if ((192 <=? n) && (n <=? 222) && negb (n =? 215))%N
       then ascii_of_N (n + 32)
       else c.

Fixpoint toLowerCase (s : string) : string :=
  match s with
  | EmptyString => EmptyString
  | String c s' => String (lower_char c) (toLowerCase s')
  end.

(** [s.split(sep)] for a one-character separator. *)
Fixpoint split_on (sep : ascii) (s : string) : list string :=
  match s with
  | EmptyString => [EmptyString]
  | String c s' =>
      if Ascii.eqb c sep then EmptyString :: split_on sep s'
      else match split_on sep s' with
           | [] => [String c EmptyString]
           | w :: ws => String c w :: ws
           end
  end.

(** The part before the first character satisfying [stop], and the rest
    (starting at that character). *)
Fixpoint span_until (stop : ascii -> bool) (s : string) : string * string :=
  match s with
  | EmptyString => (EmptyString, EmptyString)
  | String c s' =>
      if stop c then (EmptyString, s)
      else let '(a, b) := span_until stop s' in (String c a, b)
  end.

End JsString.

(* ===================================================================== *)
(** ** JSON values *)
(* ===================================================================== *)

(** What a tool receives as arguments and what the backend answers. A
    number is a rational: JSON carries neither NaN nor an infinity. *)
Inductive value : Type :=
| VNull
| VBool (b : bool)
| VNumber (q : Q)
| VString (s : string)
| VArray (items : list value)
| VObject (props : gmap string value).

(** An [any] that may be [undefined] is an [option value]. *)

(* ===================================================================== *)
(** ** The registry (config/peeringdb-objects) *)
(* ===================================================================== *)

Inductive WriteOperation := POST | PUT | PATCH | DELETE.

#[global] Instance WriteOperation_eq_dec : EqDecision WriteOperation.
Proof. solve_decision. Defined.

Record PeeringDBObjectConfig := {
  endpoint : string;
  name : string;
  description : string;
  requiredFields : list string;
  optionalFields : list string;
  relationships : list string;
  writeOperations : list WriteOperation
}.

Definition all_ops : list WriteOperation := [POST; PUT; PATCH; DELETE].

Definition org_config : PeeringDBObjectConfig :=
  {| endpoint := "org"; name := "Organization";
     description := "Organizations in PeeringDB";
     requiredFields := ["name"];
     optionalFields :=
       ["website"; "notes"; "address1"; "address2"; "city"; "state";
        "zipcode"; "country"; "latitude"; "longitude"; "phone"; "email"];
     relationships := ["net_set"; "fac_set"; "ix_set"];
     writeOperations := all_ops |}.

Definition fac_config : PeeringDBObjectConfig :=
  {| endpoint := "fac"; name := "Facility";
     description := "Colocation facilities and data centers";
     requiredFields := ["name"; "org_id"];
     optionalFields :=
       ["website"; "clli"; "rencode"; "npanxx"; "notes"; "address1";
        "address2"; "city"; "state"; "zipcode"; "country"; "latitude";
        "longitude"; "region_continent"; "tech_email"; "tech_phone";
        "sales_email"; "sales_phone"];
     relationships := ["netfac_set"; "ixfac_set"];
     writeOperations := all_ops |}.

Definition ix_config : PeeringDBObjectConfig :=
  {| endpoint := "ix"; name := "Internet Exchange";
     description := "Internet Exchange Points";
     requiredFields := ["name"; "org_id"];
     optionalFields :=
       ["name_long"; "city"; "country"; "region_continent"; "media";
        "notes"; "proto_unicast"; "proto_multicast"; "proto_ipv6";
        "website"; "url_stats"; "tech_email"; "tech_phone"; "policy_email";
        "policy_phone"; "sales_email"; "sales_phone"];
     relationships := ["ixlan_set"; "ixfac_set"; "netixlan_set"];
     writeOperations := all_ops |}.

Definition net_config : PeeringDBObjectConfig :=
  {| endpoint := "net"; name := "Network";
     description := "Autonomous Systems and Networks";
     requiredFields := ["name"; "org_id"; "asn"];
     optionalFields :=
       ["aka"; "name_long"; "website"; "irr_as_set"; "looking_glass";
        "route_server"; "notes"; "notes_private"; "info_type";
        "info_prefixes4"; "info_prefixes6"; "info_traffic"; "info_ratio";
        "info_scope"; "info_unicast"; "info_multicast"; "info_ipv6";
        "policy_url"; "policy_general"; "policy_locations"; "policy_ratio";
        "policy_contracts"];
     relationships := ["netfac_set"; "netixlan_set"; "poc_set"];
     writeOperations := all_ops |}.

Definition poc_config : PeeringDBObjectConfig :=
  {| endpoint := "poc"; name := "Point of Contact";
     description := "Contact information for networks";
     requiredFields := ["net_id"; "role"; "name"; "email"];
     optionalFields := ["phone"; "url"; "visible"];
     relationships := [];
     writeOperations := all_ops |}.

Definition ixlan_config : PeeringDBObjectConfig :=
  {| endpoint := "ixlan"; name := "IX LAN";
     description := "Internet Exchange LAN details";
     requiredFields := ["ix_id"; "name"];
     optionalFields := ["descr"; "mtu"; "vlan"; "dot1q_support"; "rs_asn"];
     relationships := ["ixpfx_set"; "netixlan_set"];
     writeOperations := all_ops |}.

Definition ixpfx_config : PeeringDBObjectConfig :=
  {| endpoint := "ixpfx"; name := "IX Prefix";
     description := "IP prefixes announced at Internet Exchanges";
     requiredFields := ["ixlan_id"; "prefix"];
     optionalFields := ["protocol"];
     relationships := [];
     writeOperations := all_ops |}.

Definition netixlan_config : PeeringDBObjectConfig :=
  {| endpoint := "netixlan"; name := "Network IX LAN";
     description := "Network connections to Internet Exchange LANs";
     requiredFields := ["net_id"; "ixlan_id"];
     optionalFields :=
       ["ipaddr4"; "ipaddr6"; "is_rs_peer"; "speed"; "asn"; "operational"];
     relationships := [];
     writeOperations := all_ops |}.

Definition netfac_config : PeeringDBObjectConfig :=
  {| endpoint := "netfac"; name := "Network Facility";
     description := "Network presence at facilities";
     requiredFields := ["net_id"; "fac_id"];
     optionalFields :=
       ["local_asn"; "avail_sonet"; "avail_ethernet"; "avail_atm"];
     relationships := [];
     writeOperations := all_ops |}.

Definition PEERINGDB_OBJECTS_entries : list (string * PeeringDBObjectConfig) :=
  [ ("org", org_config);
    ("fac", fac_config);
    ("ix", ix_config);
    ("net", net_config);
    ("poc", poc_config);
    ("ixlan", ixlan_config);
    ("ixpfx", ixpfx_config);
    ("netixlan", netixlan_config);
    ("netfac", netfac_config) ].

(** The registry of the repository. The functions below take the registry
    as a parameter [objects]; this is the value the program runs with. *)
Definition PEERINGDB_OBJECTS : gmap string PeeringDBObjectConfig :=
  list_to_map PEERINGDB_OBJECTS_entries.

Definition VALID_QUERY_MODIFIERS : list string :=
  ["contains"; "startswith"; "lt"; "lte"; "gt"; "gte"; "in"].

Definition VALID_QUERY_PARAMS : list string :=
  ["limit"; "skip"; "depth"; "fields"; "since"].

(** [arr.includes(x)] on an array of strings. *)
Definition includes_str (x : string) (arr : list string) : bool :=
  bool_decide (x ∈ arr).

Section Registry.
Variable objects : gmap string PeeringDBObjectConfig.

(** [getObjectTypes]: the registered names. In the program they come in
    declaration order; the keys of [PEERINGDB_OBJECTS_entries]. *)
Definition getObjectTypes : list string := (map_to_list objects).*1.

Definition getObjectConfig (objectType : string) : option PeeringDBObjectConfig :=
  objects !! JsString.toLowerCase objectType.

(** [config?.writeOperations.includes(operation) ?? false] *)
Definition supportsOperation (objectType : string) (operation : WriteOperation) : bool :=
  match getObjectConfig objectType with
  | Some config => bool_decide (operation ∈ writeOperations config)
  | None => false
  end.

(** [validateObjectType] *)
Definition validateObjectType (objectType : string) : bool :=
  bool_decide (is_Some (objects !! JsString.toLowerCase objectType)).
End Registry.

(* ===================================================================== *)
(** ** The schema library (zod 3), as far as the program uses it *)
(* ===================================================================== *)

Module Zod.

Inductive StringCheck := ck_email | ck_url.

(** [.min(v)] and [.max(v)] are inclusive; [.positive()] is
    [min 0, exclusive]; [.nonnegative()] is [min 0, inclusive]. *)
Inductive NumberCheck :=
| ck_min (v : Q) (inclusive : bool)
| ck_max (v : Q) (inclusive : bool)
| ck_int.

(** A schema. Every schema but an object carries the text given to
    [.describe], which plays no part in parsing. *)
Inductive ZodType : Type :=
| ZodString (checks : list StringCheck) (descr : option string)
| ZodNumber (checks : list NumberCheck) (descr : option string)
| ZodBoolean (descr : option string)
| ZodEnum (values : list string) (descr : option string)
| ZodUnion (options : list ZodType) (descr : option string)
| ZodOptional (innerType : ZodType) (descr : option string)
| ZodObject (shape : list (string * ZodType)).

Definition description_of (t : ZodType) : option string :=
  match t with
  | ZodString _ d | ZodNumber _ d | ZodBoolean d | ZodEnum _ d
  | ZodUnion _ d | ZodOptional _ d => d
  | ZodObject _ => None
  end.

(** [t.describe(d)] *)
Definition describe (d : string) (t : ZodType) : ZodType :=
  match t with
  | ZodString c _ => ZodString c (Some d)
  | ZodNumber c _ => ZodNumber c (Some d)
  | ZodBoolean _ => ZodBoolean (Some d)
  | ZodEnum v _ => ZodEnum v (Some d)
  | ZodUnion o _ => ZodUnion o (Some d)
  | ZodOptional i _ => ZodOptional i (Some d)
  | ZodObject s => ZodObject s
  end.

(** [t.optional()]: the wrapper inherits the description. *)
Definition optional (t : ZodType) : ZodType :=
  ZodOptional t (description_of t).

(** Builders, named after the calls of the program. *)
Definition string_ : ZodType := ZodString [] None.
Definition number_ : ZodType := ZodNumber [] None.
Definition boolean_ : ZodType := ZodBoolean None.
Definition enum_ (vs : list string) : ZodType := ZodEnum vs None.
Definition union_ (os : list ZodType) : ZodType := ZodUnion os None.
Definition object_ (shape : list (string * ZodType)) : ZodType := ZodObject shape.

Definition add_string_check (c : StringCheck) (t : ZodType) : ZodType :=
  match t with
  | ZodString cs d => ZodString (cs ++ [c]) d
  | _ => t
  end.
Definition add_number_check (c : NumberCheck) (t : ZodType) : ZodType :=
  match t with
  | ZodNumber cs d => ZodNumber (cs ++ [c]) d
  | _ => t
  end.
Definition email := add_string_check ck_email.
Definition url := add_string_check ck_url.
Definition positive := add_number_check (ck_min 0 false).
Definition nonnegative := add_number_check (ck_min 0 true).
Definition int := add_number_check ck_int.
Definition min (v : Z) := add_number_check (ck_min (inject_Z v) true).
Definition max (v : Z) := add_number_check (ck_max (inject_Z v) true).

(** The type tags [getParsedType] gives to the data met here. *)
Inductive ZodParsedType :=
| pt_undefined | pt_null | pt_boolean | pt_number | pt_string
| pt_array | pt_object | pt_integer | pt_float.

Definition getParsedType (data : option value) : ZodParsedType :=
  match data with
  | None => pt_undefined
  | Some VNull => pt_null
  | Some (VBool _) => pt_boolean
  | Some (VNumber _) => pt_number
  | Some (VString _) => pt_string
  | Some (VArray _) => pt_array
  | Some (VObject _) => pt_object
  end.

(** An issue: its code with the data of the code, and the path of the
    datum. The nested errors of [invalid_union] are not kept; the message
    of that issue does not show them. *)
Inductive ZodIssueCode :=
| invalid_type (expected received : ZodParsedType)
| invalid_union
| invalid_enum_value (options : list string) (received : string)
| invalid_string (validation : StringCheck)
| too_small (minimum : Q) (inclusive : bool)
| too_big (maximum : Q) (inclusive : bool).

Record ZodIssue := { code : ZodIssueCode; path : list string }.

Inductive ParseStatus := valid | dirty | aborted.

(** The outcome of [_parse]: status, value ([None] is [undefined]) and
    the issues added to the context. *)
Record ParseReturn := {
  status : ParseStatus;
  out : option value;
  issues : list ZodIssue
}.

Definition OK (v : option value) : ParseReturn :=
  {| status := valid; out := v; issues := [] |}.
Definition INVALID (iss : list ZodIssue) : ParseReturn :=
  {| status := aborted; out := None; issues := iss |}.

Definition isInteger (q : Q) : bool :=
  Z.rem (Qnum q) (Zpos (Qden q)) =? 0.

Definition Qlt_bool (a b : Q) : bool := negb (Qle_bool b a).

Section Parse.
(** The two tests of the library that are not modelled further: the
    regular expression behind [.email()] and the [new URL] attempt
    behind [.url()]. *)
Variable emailRegex_test : string -> bool.
Variable url_ok : string -> bool.

Definition string_check_ok (c : StringCheck) (s : string) : bool :=
  match c with
  | ck_email => emailRegex_test s
  | ck_url => url_ok s
  end.

Definition string_check_issue (p : list string) (s : string) (c : StringCheck)
  : option ZodIssue :=
  if string_check_ok c s then None
  else Some {| code := invalid_string c; path := p |}.

Definition number_check_issue (p : list string) (q : Q) (c : NumberCheck)
  : option ZodIssue :=
  match c with
  | ck_int =>
      if isInteger q then None
      else Some {| code := invalid_type pt_integer pt_float; path := p |}
  | ck_min v inclusive =>
      let tooSmall := if inclusive then Qlt_bool q v else Qle_bool q v in
      if tooSmall then Some {| code := too_small v inclusive; path := p |}
      else None
  | ck_max v inclusive =>
      let tooBig := if inclusive then Qlt_bool v q else Qle_bool v q in
      if tooBig then Some {| code := too_big v inclusive; path := p |}
      else None
  end.

(** A leaf whose type test passed: every check runs, each failure adds
    an issue and makes the status dirty. *)
Definition checked (v : value) (iss : list ZodIssue) : ParseReturn :=
  {| status := if iss is [] then valid else dirty; out := Some v; issues := iss |}.

(** [ZodUnion._parse], synchronous: the first valid option wins; else
    the first dirty one, with its issues; else one [invalid_union]. *)
Definition union_result (p : list string) (rs : list ParseReturn) : ParseReturn :=
  match List.find (fun r => if status r is valid then true else false) rs with
  | Some r => r
  | None =>
      match List.find (fun r => if status r is dirty then true else false) rs with
      | Some r => r
      | None => INVALID [{| code := invalid_union; path := p |}]
      end
  end.

(** One entry of [pairs] in [ZodObject._parse]. *)
Record ObjectPair := {
  pair_key : string;
  pair_value : ParseReturn;
  alwaysSet : bool
}.

(** The pair [ZodObject._parse] pushes for a key of the shape, given
    the parser of the field schemas. *)
Definition object_pair
           (parse_field : ZodType -> list string -> option value -> ParseReturn)
           (p : list string) (props : gmap string value)
           (kv : string * ZodType) : ObjectPair :=
  {| pair_key := fst kv;
     pair_value := parse_field (snd kv) (p ++ [fst kv]) (props !! fst kv);
     alwaysSet := bool_decide (is_Some (props !! fst kv)) |}.

(** [ParseStatus.mergeObjectSync]. The issues of every pair are already
    in the context when it runs. A property is stored when its parsed
    value is defined or [alwaysSet] holds; a parse that is not aborted
    gives [undefined] only on [undefined] data, where [alwaysSet] is
    false, so the stored properties are those with a defined value. *)
Fixpoint mergeObject (st : ParseStatus) (finalObject : gmap string value)
         (pairs : list ObjectPair) : ParseStatus * option value :=
  match pairs with
  | [] => (st, Some (VObject finalObject))
  | pr :: rest =>
      match status (pair_value pr) with
      | aborted => (aborted, None)
      | s =>
          let st' := if s is dirty then dirty else st in
          let finalObject' :=
            if negb (String.eqb (pair_key pr) "__proto__") then
              match out (pair_value pr) with
              | Some v => <[pair_key pr := v]> finalObject
              | None => finalObject
              end
            else finalObject in
          mergeObject st' finalObject' rest
      end
  end.

Fixpoint _parse (t : ZodType) (p : list string) (data : option value)
  : ParseReturn :=
  match t with
  | ZodString checks _ =>
      match data with
      | Some (VString s) =>
          checked (VString s) (omap (string_check_issue p s) checks)
      | _ => INVALID [{| code := invalid_type pt_string (getParsedType data);
                         path := p |}]
      end
  | ZodNumber checks _ =>
      match data with
      | Some (VNumber q) =>
          checked (VNumber q) (omap (number_check_issue p q) checks)
      | _ => INVALID [{| code := invalid_type pt_number (getParsedType data);
                         path := p |}]
      end
  | ZodBoolean _ =>
      match data with
      | Some (VBool b) => OK (Some (VBool b))
      | _ => INVALID [{| code := invalid_type pt_boolean (getParsedType data);
                         path := p |}]
      end
  | ZodEnum values _ =>
      match data with
      | Some (VString s) =>
          if includes_str s values then OK (Some (VString s))
          else INVALID [{| code := invalid_enum_value values s; path := p |}]
      | _ => INVALID [{| code := invalid_type pt_string (getParsedType data);
                         path := p |}]
      end
  | ZodUnion options _ =>
      union_result p (List.map (fun o => _parse o p data) options)
  | ZodOptional innerType _ =>
      match data with
      | None => OK None
      | Some _ => _parse innerType p data
      end
  | ZodObject shape =>
      match data with
      | Some (VObject props) =>
          let pairs := List.map (object_pair _parse p props) shape in
          let '(st, v) := mergeObject valid ∅ pairs in
          {| status := st; out := v;
             issues := concat (List.map (fun pr => issues (pair_value pr)) pairs) |}
      | _ => INVALID [{| code := invalid_type pt_object (getParsedType data);
                         path := p |}]
      end
  end.

(** [schema.parse(data)]: the value when the status is valid, else a
    [ZodError] with the issues. *)
Definition parse (schema : ZodType) (data : value) : list ZodIssue + value :=
  let r := _parse schema [] (Some data) in
  match status r, out r with
  | valid, Some v => inr v
  | _, _ => inl (issues r)
  end.
End Parse.
End Zod.

(* ===================================================================== *)
(** ** Errors and thrown values *)
(* ===================================================================== *)

(** [types/peeringdb]: the error object the HTTP client rejects with. *)
Record PeeringDBError := {
  message : string;
  status : option Z;
  data : option value;
  url : option string
}.

(** What the program throws: an [Error] built with one of its message
    templates (the constructor keeps the interpolated parts), the
    [TypeError] of [new URL], or the rejection of an HTTP call. *)
Inductive Thrown :=
| UnknownObjectType (objectType : string)
| ValidationFailed (objectType : string) (issues : list Zod.ZodIssue)
| ApiKeyRequired
| InvalidResourceUriFormat
| MissingObjectTypeInUri
| InvalidObjectType (objectType : string)
| InvalidURL
| Rejected (e : PeeringDBError).

(* ===================================================================== *)
(** ** utils/validation *)
(* ===================================================================== *)

Inductive Operation := create | update | patch.

#[global] Instance Operation_eq_dec : EqDecision Operation.
Proof. solve_decision. Defined.

(** [schemaFields[k] = v] on an object whose key order is kept: an
    existing key keeps its place. *)
Fixpoint set_field {A} (k : string) (v : A) (l : list (string * A)) : list (string * A) :=
  match l with
  | [] => [(k, v)]
  | (k', v') :: l' =>
      if String.eqb k' k then (k, v) :: l' else (k', v') :: set_field k v l'
  end.

Fixpoint get_field {A} (k : string) (l : list (string * A)) : option A :=
  match l with
  | [] => None
  | (k', v') :: l' => if String.eqb k' k then Some v' else get_field k l'
  end.

(** [createFieldSchema]. The parameter [isRequired] is not used by the
    body, as in the source. *)
Definition createFieldSchema (fieldName : string) (isRequired : bool) : Zod.ZodType :=
  let is_ (s : string) := String.eqb fieldName s in
  let startsWith_ (p : string) := JsString.startsWith p fieldName in
  let includes_ (p : string) := JsString.includes p fieldName in
  (* Common ID fields *)
  if JsString.endsWith "_id" fieldName || is_ "id" then
    Zod.describe (JsString.replace "_id" "" fieldName +:+ " ID")
                 (Zod.union_ [Zod.string_; Zod.number_])
  (* ASN field *)
  else if is_ "asn" then
    Zod.describe "Autonomous System Number" (Zod.int (Zod.positive Zod.number_))
  (* Email fields *)
  else if includes_ "email" then
    Zod.describe "Email address" (Zod.email Zod.string_)
  (* Phone fields *)
  else if includes_ "phone" then
    Zod.describe "Phone number" Zod.string_
  (* URL/Website fields *)
  else if includes_ "url" || is_ "website" || is_ "looking_glass" then
    Zod.describe "URL" (Zod.url Zod.string_)
  (* Geographic coordinates *)
  else if is_ "latitude" then
    Zod.describe "Latitude coordinate" (Zod.max 90 (Zod.min (-90) Zod.number_))
  else if is_ "longitude" then
    Zod.describe "Longitude coordinate" (Zod.max 180 (Zod.min (-180) Zod.number_))
  (* Boolean fields *)
  else if startsWith_ "proto_" || startsWith_ "info_" || startsWith_ "avail_"
          || is_ "is_rs_peer" || is_ "dot1q_support" || is_ "operational" then
    Zod.describe (fieldName +:+ " flag") Zod.boolean_
  (* Numeric fields *)
  else if is_ "speed" || is_ "mtu" || is_ "vlan" || is_ "rs_asn"
          || is_ "local_asn" || startsWith_ "info_prefixes" then
    Zod.describe fieldName (Zod.int (Zod.nonnegative Zod.number_))
  (* IP address fields *)
  else if includes_ "ipaddr" || is_ "prefix" then
    Zod.describe "IP address or prefix" Zod.string_
  (* Enum-like fields *)
  else if is_ "role" then
    Zod.describe "Contact role"
      (Zod.enum_ ["Abuse"; "Administrative"; "Maintenance"; "NOC"; "Policy";
                  "Public Relations"; "Sales"; "Technical"])
  else if is_ "visible" then
    Zod.describe "Visibility level" (Zod.enum_ ["Users"; "Public"; "Private"])
  else if is_ "status" then
    Zod.describe "Object status" (Zod.enum_ ["ok"; "pending"; "deleted"])
  else if is_ "info_type" then
    Zod.describe "Network type"
      (Zod.enum_ ["Content"; "Cable/DSL/ISP"; "Enterprise"; "Educational/Research";
                  "Government"; "Non-Profit"; "Route Server"; "Network Services";
                  "Online Gaming"])
  else if is_ "info_scope" then
    Zod.describe "Network scope" (Zod.enum_ ["Global"; "Regional"; "National"; "Local"])
  else if is_ "policy_general" then
    Zod.describe "General peering policy"
      (Zod.enum_ ["Open"; "Selective"; "Restrictive"; "No"])
  (* Default to string for other fields *)
  else Zod.describe fieldName Zod.string_.

Section Validation.
Variable emailRegex_test : string -> bool.
Variable url_ok : string -> bool.
Variable objects : gmap string PeeringDBObjectConfig.

(** The steps of [createObjectSchema] on [schemaFields], in the order of
    the source. *)

(* Add ID field for update and patch operations *)
Definition addIdField (config : PeeringDBObjectConfig)
           (schemaFields : list (string * Zod.ZodType)) : list (string * Zod.ZodType) :=
  set_field "id"
    (Zod.describe (name config +:+ " ID") (Zod.union_ [Zod.string_; Zod.number_]))
    schemaFields.

(* Add required fields for create and update operations *)
Definition addRequiredFields (config : PeeringDBObjectConfig)
           (schemaFields : list (string * Zod.ZodType)) : list (string * Zod.ZodType) :=
  fold_left (fun acc field => set_field field (createFieldSchema field true) acc)
            (requiredFields config) schemaFields.

(* Add optional fields *)
Definition addOptionalFields (config : PeeringDBObjectConfig) (operation : Operation)
           (schemaFields : list (string * Zod.ZodType)) : list (string * Zod.ZodType) :=
  fold_left (fun acc field =>
               let isRequired :=
                 bool_decide (operation = create)
                 && includes_str field (requiredFields config) in
               set_field field (Zod.optional (createFieldSchema field isRequired)) acc)
            (optionalFields config) schemaFields.

(* For patch operations, make all fields optional except ID *)
Definition makeOptionalExceptId (schemaFields : list (string * Zod.ZodType))
  : list (string * Zod.ZodType) :=
  fold_left (fun acc key =>
               match get_field key acc with
               | Some s =>
                   if negb (String.eqb key "id") then set_field key (Zod.optional s) acc
                   else acc
               | None => acc
               end)
            (schemaFields.*1) schemaFields.

(** The shape [createObjectSchema] hands to [z.object]. *)
Definition objectSchemaFields (config : PeeringDBObjectConfig) (operation : Operation)
  : list (string * Zod.ZodType) :=
  let schemaFields : list (string * Zod.ZodType) := [] in
  let schemaFields :=
    if bool_decide (operation = update) || bool_decide (operation = patch)
    then addIdField config schemaFields else schemaFields in
  let schemaFields :=
    if bool_decide (operation = create) || bool_decide (operation = update)
    then addRequiredFields config schemaFields else schemaFields in
  let schemaFields := addOptionalFields config operation schemaFields in
  if bool_decide (operation = patch)
  then makeOptionalExceptId schemaFields else schemaFields.

Definition createObjectSchema (objectType : string) (operation : Operation)
  : Thrown + Zod.ZodType :=
  match objects !! objectType with
  | None => inl (UnknownObjectType objectType)
  | Some config => inr (Zod.object_ (objectSchemaFields config operation))
  end.

(** [validateObjectData]. The data and the result are objects; they are
    kept as [value]s, the result being whatever [parse] returns. *)
Definition validateObjectData (objectType : string) (data : gmap string value)
           (operation : Operation) : Thrown + value :=
  match createObjectSchema objectType operation with
  | inl e => inl e
  | inr schema =>
      match Zod.parse emailRegex_test url_ok schema (VObject data) with
      | inr v => inr v
      | inl issues => inl (ValidationFailed objectType issues)
      end
  end.
End Validation.

(** [key.match(/^(.+)__(.+)$/)]: the two groups, when the key matches. The
    first group is greedy, so the split is at the last ["__"] that leaves
    both groups non-empty; [.] matches no line terminator. *)
Fixpoint modifierSplit (s : string) : option (string * string) :=
  match s with
  | EmptyString => None
  | String c s' =>
      match modifierSplit s' with
      | Some (a, b) => Some (String c a, b)
      | None =>
          let rest := JsString.drop 2 s' in
          if String.prefix "__" s' && negb (String.eqb rest "")
          then Some (String c EmptyString, rest)
          else None
      end
  end.

Definition is_line_terminator (c : ascii) : bool :=
  let n := N_of_ascii c in ((n =? 10) || (n =? 13))%N.

Definition modifierMatch (key : string) : option (string * string) :=
  if forallb (fun c => negb (is_line_terminator c)) (list_ascii_of_string key)
  then modifierSplit key else None.

(** [obj[key] = value] on a plain object. The name [__proto__] is the
    accessor property of [Object.prototype]: unless the object has a
    property of its own under that name, the assignment runs the setter,
    which stores no property of the object. *)
Definition assign {V} (key : string) (value : V) (obj : gmap string V) : gmap string V :=
  match obj !! key with
  | Some _ => <[key := value]> obj
  | None => if String.eqb key "__proto__" then obj else <[key := value]> obj
  end.

(** [validateQueryParams], over any type of values ([Record<string, any>]).
    The three branches of the loop body make the same assignment
    [validated[key] = value]. *)
Definition validateQueryParams {V} (params : gmap string V) : gmap string V :=
  map_fold
    (fun key value validated =>
       (* Check if it's a standard query parameter *)
       if includes_str key VALID_QUERY_PARAMS then assign key value validated
       else
         (* Check if it's a field query with modifier *)
         match modifierMatch key with
         | Some (fieldName, modifier) =>
             if negb (String.eqb modifier "") && includes_str modifier VALID_QUERY_MODIFIERS
             then assign key value validated
             else (* Allow direct field queries (exact match) *)
               assign key value validated
         | None => assign key value validated
         end)
    ∅ params.

(* ===================================================================== *)
(** ** URLs and numbers of the platform *)
(* ===================================================================== *)

Module Js.

(** The parts of a [URL] object the program reads. *)
Record URL := {
  protocol : string;          (* with its colon *)
  host : string;
  pathname : string;
  searchParams : list (string * string)
}.

Definition is_alpha (c : ascii) : bool :=
  let n := N_of_ascii c in
  (((65 <=? n) && (n <=? 90)) || ((97 <=? n) && (n <=? 122)))%N.
Definition is_digit (c : ascii) : bool :=
  let n := N_of_ascii c in ((48 <=? n) && (n <=? 57))%N.
Definition is_scheme_char (c : ascii) : bool :=
  is_alpha c || is_digit c
  || Ascii.eqb c "+" || Ascii.eqb c "-" || Ascii.eqb c ".".

Definition hex_digit (c : ascii) : option N :=
  let n := N_of_ascii c in
  if is_digit c then Some (n - 48)%N
  else if ((65 <=? n) && (n <=? 70))%N then Some (n - 55)%N
  else if ((97 <=? n) && (n <=? 102))%N then Some (n - 87)%N
  else None.

(** Decoding of a form-urlencoded name or value: ["+"] is a space and
    ["%XY"] is the byte [XY]. *)
Fixpoint form_decode (s : string) : string :=
  match s with
  | EmptyString => EmptyString
  | String c s' =>
      if Ascii.eqb c "+" then String " " (form_decode s')
      else if Ascii.eqb c "%" then
        match s' with
        | String h (String l s'') =>
            match hex_digit h, hex_digit l with
            | Some a, Some b => String (ascii_of_N (16 * a + b)) (form_decode s'')
            | _, _ => String c (form_decode s')
            end
        | _ => String c (form_decode s')
        end
      else String c (form_decode s')
  end.

(** The list behind [url.searchParams]: the query split at ["&"], empty
    pieces skipped, each piece split at its first ["="]. *)
Definition parse_query (q : string) : list (string * string) :=
  omap (fun piece =>
          if String.eqb piece "" then None
          else
            let '(k, rest) := JsString.span_until (fun c => Ascii.eqb c "=") piece in
            Some (form_decode k, form_decode (JsString.drop 1 rest)))
       (JsString.split_on "&" q).

(** [new URL(uri)] without a base, for the inputs of the resource layer:
    [scheme://authority/path?query#fragment] and
    [scheme:path?query#fragment] with a scheme that is not one of the
    special ones (http, https, ws, wss, ftp, file). The authority is the
    host, the path is kept as written (for such a scheme the host is not
    part of [pathname]), and the fragment is dropped. [None] is the
    [TypeError] for an input with no scheme. *)
Definition new_URL (uri : string) : option URL :=
  let '(scheme, rest) := JsString.span_until (fun c => Ascii.eqb c ":") uri in
  match scheme, rest with
  | String c0 _, String _ after =>
      if is_alpha c0 && forallb is_scheme_char (list_ascii_of_string scheme) then
        let stop_path (c : ascii) := Ascii.eqb c "?" || Ascii.eqb c "#" in
        let stop_host (c : ascii) := Ascii.eqb c "/" || stop_path c in
        let '(authority, after_host) :=
          if String.prefix "//" after
          then JsString.span_until stop_host (JsString.drop 2 after)
          else (EmptyString, after) in
        let '(path, after_path) := JsString.span_until stop_path after_host in
        let query :=
          if String.prefix "?" after_path
          then fst (JsString.span_until (fun c => Ascii.eqb c "#")
                                        (JsString.drop 1 after_path))
          else EmptyString in
        Some {| protocol := JsString.toLowerCase scheme +:+ ":";
                host := authority;
                pathname := path;
                searchParams := parse_query query |}
      else None
  | _, _ => None
  end.

(** A number produced by [parseInt]: an integer-valued double or an
    infinity ([NaN] is the [None] of [parseInt]). *)
Inductive Number := Finite (z : Z) | Infinity (negative : bool).

(** The double nearest to an integer (ties to even, 53 bits of
    significand); beyond the largest double, an infinity. *)
Definition to_double (z : Z) : Number :=
  let a := Z.abs z in
  if a <? 2 ^ 53 then Finite z
  else
    let e := Z.log2 a - 52 in
    let q := Z.shiftr a e in
    let r := Z.land a (Z.ones e) in
    let half := 2 ^ (e - 1) in
    let q' := if (half <? r) || ((r =? half) && Z.odd q) then q + 1 else q in
    let m := Z.shiftl q' e in
    if 2 ^ 1024 <=? m then Infinity (z <? 0) else Finite (Z.sgn z * m).

(** White space of [parseInt] and [trim], among 8-bit code units. *)
Definition is_white_space (c : ascii) : bool :=
  let n := N_of_ascii c in
  (((9 <=? n) && (n <=? 13)) || (n =? 32) || (n =? 160))%N.

Fixpoint trimStart (s : string) : string :=
  match s with
  | String c s' => if is_white_space c then trimStart s' else s
  | EmptyString => EmptyString
  end.

Fixpoint trimEnd (s : string) : string :=
  match s with
  | EmptyString => EmptyString
  | String c s' =>
      match trimEnd s' with
      | EmptyString => if is_white_space c then EmptyString else String c EmptyString
      | t => String c t
      end
  end.

Definition trim (s : string) : string := trimEnd (trimStart s).

(** The value of the longest prefix of decimal digits, and whether there
    was a digit at all. *)
Fixpoint digits_prefix (acc : Z) (seen : bool) (s : string) : option Z :=
  match s with
  | String c s' =>
      if is_digit c
      then digits_prefix (10 * acc + Z.of_N (N_of_ascii c - 48)) true s'
      else if seen then Some acc else None
  | EmptyString => if seen then Some acc else None
  end.

(** [parseInt(s, 10)]: white space, a sign, digits; whatever follows the
    digits is ignored. [None] is [NaN]. The sign of a zero is not kept. *)
Definition parseInt (s : string) : option Number :=
  let s := trimStart s in
  let '(negative, s) :=
    match s with
    | String c s' =>
        if Ascii.eqb c "-" then (true, s')
        else if Ascii.eqb c "+" then (false, s')
        else (false, s)
    | EmptyString => (false, s)
    end in
  match digits_prefix 0 false s with
  | Some n => Some (to_double (if negative then - n else n))
  | None => None
  end.

End Js.

(* ===================================================================== *)
(** ** utils/validation: resource URIs;  resources: query parameters *)
(* ===================================================================== *)

Record ResourceReference (V : Type) := {
  ref_objectType : string;
  ref_id : option string;
  ref_params : gmap string V
}.
Arguments ref_objectType {V} _.
Arguments ref_id {V} _.
Arguments ref_params {V} _.

(** [validateResourceUri] *)
Definition validateResourceUri (objects : gmap string PeeringDBObjectConfig)
           (uri : string) : Thrown + ResourceReference string :=
  match Js.new_URL uri with
  | None => inl InvalidURL
  | Some url =>
      let pathParts :=
        List.filter (fun part => negb (String.eqb part ""))
                    (JsString.split_on "/" (Js.pathname url)) in
      if (length pathParts <? 1)%nat
         || negb (bool_decide (pathParts !! 0%nat = Some "peeringdb:"))
      then inl InvalidResourceUriFormat
      else
        match pathParts !! 1%nat with
        | None => inl MissingObjectTypeInUri
        | Some objectType =>
            if String.eqb objectType "" then inl MissingObjectTypeInUri
            else if negb (validateObjectType objects objectType)
            then inl (InvalidObjectType objectType)
            else
              let id := pathParts !! 2%nat in
              let params : gmap string string :=
                fold_left (fun params kv => assign (fst kv) (snd kv) params)
                          (Js.searchParams url) ∅ in
              inr {| ref_objectType := objectType;
                     ref_id := match id with
                               | Some s => if String.eqb s "" then None else Some s
                               | None => None
                               end;
                     ref_params := validateQueryParams params |}
        end
  end.

(** The values [parseResourceParams] stores. *)
Inductive ParamValue :=
| PString (s : string)
| PNumber (n : Js.Number)
| PList (l : list string).

(** [parseResourceParams], on the list behind [uri.searchParams]; the
    stores are assignments [params[key] = ...]. *)
Definition parseResourceParams (searchParams : list (string * string))
  : gmap string ParamValue :=
  fold_left
    (fun params kv =>
       let key := fst kv in
       let value := snd kv in
       (* Handle numeric parameters *)
       if includes_str key ["limit"; "skip"; "depth"; "since"] then
         match Js.parseInt value with
         | Some numValue => assign key (PNumber numValue) params
         | None => params
         end
       (* Handle comma-separated lists for 'in' queries *)
       else if JsString.endsWith "__in" key then
         assign key (PList (List.map Js.trim (JsString.split_on "," value))) params
       (* Handle string parameters *)
       else assign key (PString value) params)
    searchParams ∅.

(** What the resource handlers pass to the client as query parameters. *)
Definition resourceQuery (searchParams : list (string * string)) : gmap string ParamValue :=
  validateQueryParams (parseResourceParams searchParams).

(* ===================================================================== *)
(** ** Effects: HTTP calls and timers *)
(* ===================================================================== *)

(** A call of the axios instance by one of the write methods of the
    client. The request path is [/${endpoint}] for a POST and
    [/${endpoint}/${id}] otherwise; [id] is the value interpolated there
    ([None] is [undefined]). *)
Inductive HttpRequest :=
| HttpPost (endpoint : string) (body : value)
| HttpPut (endpoint : string) (id : option value) (body : value)
| HttpPatch (endpoint : string) (id : option value) (body : value)
| HttpDelete (endpoint : string) (id : option value).

Inductive Event :=
| Http (request : HttpRequest)
| SetTimeout (ms : Z).

Definition is_http (e : Event) : bool :=
  match e with Http _ => true | SetTimeout _ => false end.

(** A computation that may throw, over the history of events so far. *)
Definition M (A : Type) : Type := list Event -> (Thrown + A) * list Event.

Definition ret {A} (a : A) : M A := fun h => (inr a, h).
Definition throw {A} (e : Thrown) : M A := fun h => (inl e, h).
Definition bind {A B} (m : M A) (k : A -> M B) : M B :=
  fun h => match m h with
           | (inr a, h') => k a h'
           | (inl e, h') => (inl e, h')
           end.
Definition try_catch {A} (body : M A) (handler : Thrown -> M A) : M A :=
  fun h => match body h with
           | (inr a, h') => (inr a, h')
           | (inl e, h') => handler e h'
           end.
Definition lift {A} (r : Thrown + A) : M A :=
  match r with inr a => ret a | inl e => throw e end.
Definition emit (e : Event) : M unit := fun h => (inr tt, h ++ [e]).

Declare Scope js_scope.
Delimit Scope js_scope with js.
Notation "x <- m ;; k" := (bind m (fun x => k))
  (at level 100, m at next level, right associativity) : js_scope.
Notation "m ;;; k" := (bind m (fun _ => k))
  (at level 100, right associativity) : js_scope.

(* ===================================================================== *)
(** ** services/peeringdb-client, the write methods *)
(* ===================================================================== *)

Section Client.
(** [process.env.PEERINGDB_API_KEY] *)
Variable apiKey : option string.
(** The axios instance with its interceptors: given what happened so
    far, a request resolves with [response.data] or rejects with the
    error object the response interceptor builds. *)
Variable axios : list Event -> HttpRequest -> PeeringDBError + value.

Definition hasApiKey : bool :=
  match apiKey with
  | Some k => negb (String.eqb k "")
  | None => false
  end.

Definition validateApiKey : M unit :=
  if negb hasApiKey then throw ApiKeyRequired else ret tt.

Definition handleError (error : PeeringDBError) : PeeringDBError :=
  if negb (String.eqb (message error) "") && bool_decide (is_Some (status error))
  then error
  else {| message := if String.eqb (message error) ""
                     then "Unknown error occurred" else message error;
          status := None; data := None; url := None |}.

(** One awaited call of the instance, inside the [try]/[catch] of a
    client method. *)
Definition call (request : HttpRequest) : M value :=
  fun h => match axios h request with
           | inr responseData => (inr responseData, h ++ [Http request])
           | inl error => (inl (Rejected (handleError error)), h ++ [Http request])
           end.

Definition client_post (endpoint : string) (body : value) : M value :=
  (validateApiKey ;;; call (HttpPost endpoint body))%js.
Definition client_put (endpoint : string) (id : option value) (body : value) : M value :=
  (validateApiKey ;;; call (HttpPut endpoint id body))%js.
Definition client_patch (endpoint : string) (id : option value) (body : value) : M value :=
  (validateApiKey ;;; call (HttpPatch endpoint id body))%js.
Definition client_delete (endpoint : string) (id : option value) : M value :=
  (validateApiKey ;;; call (HttpDelete endpoint id))%js.
End Client.

(* ===================================================================== *)
(** ** tools/peeringdb-tools *)
(* ===================================================================== *)

(** What a tool handler returns. The texts are not built: [ToolOk] stands
    for the result that reports success with the response, [ToolError]
    for the one with [isError: true] and the message of the error. *)
Inductive ToolResult :=
| ToolOk (response : value)
| ToolError (error : Thrown).

Inductive BulkOperation := bulk_create | bulk_update | bulk_delete.

(** The arguments of the bulk tool, as its input schema hands them to the
    handler. The schema asks for a number as the batch size; the batch
    sizes of this development are the integers, on which the arithmetic
    of the loop ([i + batch_size], [slice]) is that of [Z]. A size with a
    fractional part is outside the model. *)
Record BulkArgs := {
  operation : BulkOperation;
  items : list (gmap string value);
  batch_size : Z
}.

Record BulkItemResult := {
  success : bool;
  item : gmap string value;
  response : option value;
  error : option Thrown
}.

Record BulkSummary := {
  successful : nat;
  failed : nat;
  results : list BulkItemResult
}.

(** [arr.slice(start, end)] *)
Definition slice_index (len k : Z) : Z :=
  if k <? 0 then Z.max (len + k) 0 else Z.min k len.

Definition js_slice {A} (l : list A) (start end_ : Z) : list A :=
  let len := Z.of_nat (length l) in
  let from := slice_index len start in
  let to := slice_index len end_ in
  take (Z.to_nat (to - from)) (drop (Z.to_nat from) l).

Section Tools.
Variable emailRegex_test : string -> bool.
Variable url_ok : string -> bool.
Variable objects : gmap string PeeringDBObjectConfig.
Variable apiKey : option string.
Variable axios : list Event -> HttpRequest -> PeeringDBError + value.

Let validate := validateObjectData emailRegex_test url_ok objects.

(** The handlers [registerObjectTools] builds for an object type and its
    [config]. *)
Definition create_handler (objectType : string) (config : PeeringDBObjectConfig)
           (args : gmap string value) : M ToolResult :=
  try_catch
    (validatedData <- lift (validate objectType args create) ;;
     response <- client_post apiKey axios (endpoint config) validatedData ;;
     ret (ToolOk response))%js
    (fun error => ret (ToolError error)).

Definition update_handler (objectType : string) (config : PeeringDBObjectConfig)
           (args : gmap string value) : M ToolResult :=
  try_catch
    (let id := args !! "id" in
     let data := delete "id" args in
     validatedData <- lift (validate objectType data update) ;;
     response <- client_put apiKey axios (endpoint config) id validatedData ;;
     ret (ToolOk response))%js
    (fun error => ret (ToolError error)).

Definition patch_handler (objectType : string) (config : PeeringDBObjectConfig)
           (args : gmap string value) : M ToolResult :=
  try_catch
    (let id := args !! "id" in
     let data := delete "id" args in
     validatedData <- lift (validate objectType data patch) ;;
     response <- client_patch apiKey axios (endpoint config) id validatedData ;;
     ret (ToolOk response))%js
    (fun error => ret (ToolError error)).

Definition delete_handler (objectType : string) (config : PeeringDBObjectConfig)
           (args : gmap string value) : M ToolResult :=
  try_catch
    (response <- client_delete apiKey axios (endpoint config) (args !! "id") ;;
     ret (ToolOk response))%js
    (fun error => ret (ToolError error)).

(** The body of [for (const item of batch)]: one item, its own
    [try]/[catch]. *)
Definition bulk_item (objectType : string) (config : PeeringDBObjectConfig)
           (op : BulkOperation) (item : gmap string value) : M BulkItemResult :=
  try_catch
    (response <-
       match op with
       | bulk_create =>
           createData <- lift (validate objectType item create) ;;
           client_post apiKey axios (endpoint config) createData
       | bulk_update =>
           let updateId := item !! "id" in
           let updateData := delete "id" item in
           validatedUpdateData <- lift (validate objectType updateData update) ;;
           client_put apiKey axios (endpoint config) updateId validatedUpdateData
       | bulk_delete =>
           client_delete apiKey axios (endpoint config) (item !! "id")
       end ;;
     ret {| success := true; item := item;
            response := Some response; error := None |})%js
    (fun e => ret {| success := false; item := item;
                     response := None; error := Some e |}).

(** [for (const item of batch) ...; results.push(...)] *)
Fixpoint bulk_batch (objectType : string) (config : PeeringDBObjectConfig)
         (op : BulkOperation) (batch : list (gmap string value))
         (results : list BulkItemResult) : M (list BulkItemResult) :=
  match batch with
  | [] => ret results
  | item :: batch' =>
      (r <- bulk_item objectType config op item ;;
       bulk_batch objectType config op batch' (results ++ [r]))%js
  end.

(** [for (let i = 0; i < items.length; i += batch_size)]. A batch size
    that is not positive never lets the loop end; [fuel] bounds the number
    of rounds and [None] says that it ran out. *)
Fixpoint bulk_loop (fuel : nat) (objectType : string) (config : PeeringDBObjectConfig)
         (args : BulkArgs) (i : Z) (results : list BulkItemResult)
         (h : list Event) : option (Thrown + list BulkItemResult) * list Event :=
  if i <? Z.of_nat (length (items args)) then
    match fuel with
    | O => (None, h)
    | S fuel' =>
        let batch := js_slice (items args) i (i + batch_size args) in
        match bulk_batch objectType config (operation args) batch results h with
        | (inl e, h') => (Some (inl e), h')
        | (inr results', h') =>
            (* Add small delay between batches *)
            let h'' :=
              if i + batch_size args <? Z.of_nat (length (items args))
              then h' ++ [SetTimeout 1000] else h' in
            bulk_loop fuel' objectType config args (i + batch_size args) results' h''
        end
    end
  else (Some (inr results), h).

Inductive BulkToolResult :=
| BulkDone (summary : BulkSummary)
| BulkError (error : Thrown).

(** The handler of the bulk tool. *)
Definition bulk_handler (fuel : nat) (objectType : string)
           (config : PeeringDBObjectConfig) (args : BulkArgs)
           (h : list Event) : option BulkToolResult * list Event :=
  match bulk_loop fuel objectType config args 0 [] h with
  | (None, h') => (None, h')
  | (Some (inr results), h') =>
      let successful := length (List.filter (fun r => success r) results) in
      let failed := length (List.filter (fun r => negb (success r)) results) in
      (Some (BulkDone {| successful := successful; failed := failed;
                         results := results |}), h')
  | (Some (inl e), h') => (Some (BulkError e), h')
  end.

(** A registered tool. The tool of a write operation is registered with
    the shape given as its [inputSchema] and its handler (with the object
    type it closes over); the bulk tool, whose input schema yields the
    [BulkArgs], with its handler. *)
Inductive Tool :=
| ObjectTool (inputSchema : list (string * Zod.ZodType))
             (handler : gmap string value -> M ToolResult)
| BulkTool (handler : nat -> BulkArgs -> list Event ->
                      option BulkToolResult * list Event).

Definition tool_name (kind objectType : string) : string :=
  "peeringdb_" +:+ kind +:+ "_" +:+ objectType.

(** [registerObjectTools]: the tools registered for one object type, in
    order of registration. The four tools of the write operations are
    registered with [inputSchema: {}]. *)
Definition registerObjectTools (objectType : string) : Thrown + list (string * Tool) :=
  match objects !! objectType with
  | None => inl (UnknownObjectType objectType)
  | Some config =>
      inr
        ((if supportsOperation objects objectType POST
          then [(tool_name "create" objectType,
                 ObjectTool [] (create_handler objectType config))] else [])
         ++ (if supportsOperation objects objectType PUT
             then [(tool_name "update" objectType,
                    ObjectTool [] (update_handler objectType config))] else [])
         ++ (if supportsOperation objects objectType PATCH
             then [(tool_name "patch" objectType,
                    ObjectTool [] (patch_handler objectType config))] else [])
         ++ (if supportsOperation objects objectType DELETE
             then [(tool_name "delete" objectType,
                    ObjectTool [] (delete_handler objectType config))] else [])
         ++ [(tool_name "bulk" objectType,
              BulkTool (fun fuel => bulk_handler fuel objectType config))])
  end.

(** [registerTools]: every object type of the registry. *)
Definition registerTools : list (string * Tool) :=
  concat (List.map (fun objectType =>
                      match registerObjectTools objectType with
                      | inr tools => tools
                      | inl _ => []
                      end)
                   (getObjectTypes objects)).

(** The name under which the tool of a write operation is registered. *)
Definition operation_tool (operation : WriteOperation) (objectType : string) : string :=
  tool_name (match operation with
             | POST => "create" | PUT => "update"
             | PATCH => "patch" | DELETE => "delete"
             end) objectType.

(** The host's dispatch of a call by tool name ([McpServer], on a
    [tools/call] request), for the tools of the write operations. A name
    with no registered tool reaches no handler. The host parses the
    arguments of the call with [z.object(inputSchema)] and calls the
    handler on what the parse returns: with the empty shape these tools
    are registered with, the handler is given an object without
    properties, whatever the caller sent. The bulk tool is run by
    [bulk_handler] on the arguments its own schema yields. *)
Inductive CallResult :=
| Returned (result : ToolResult)
| InvalidArguments (issues : list Zod.ZodIssue)
| ToolNotFound
| IsBulkTool.

Definition callTool (name : string) (args : gmap string value)
           (h : list Event) : CallResult * list Event :=
  match get_field name registerTools with
  | Some (ObjectTool inputSchema handler) =>
      match Zod.parse emailRegex_test url_ok (Zod.object_ inputSchema) (VObject args) with
      | inr (VObject parsed) =>
          match handler parsed h with
          | (inr result, h') => (Returned result, h')
          | (inl e, h') => (Returned (ToolError e), h')
          end
      | inr _ => (InvalidArguments [], h)
      | inl issues => (InvalidArguments issues, h)
      end
  | Some (BulkTool _) => (IsBulkTool, h)
  | None => (ToolNotFound, h)
  end.
End Tools.

(* ===================================================================== *)
(** ** Notions used in the statements *)
(* ===================================================================== *)

(** The schema of an identifier: a string or a number. *)
Definition id_schema (d : option string) : Zod.ZodType :=
  Zod.ZodUnion [Zod.string_; Zod.number_] d.

Definition is_optional (s : Zod.ZodType) : bool :=
  match s with Zod.ZodOptional _ _ => true | _ => false end.

(** An entry of a patch shape: the identifier, or an optional field. *)
Definition patch_entry (kv : string * Zod.ZodType) : Prop :=
  (fst kv = "id" /\ exists d, snd kv = id_schema d)
  \/ (fst kv <> "id" /\ is_optional (snd kv) = true).

(** The parsed values of the occurrences of [key] in a query, in order. *)
Definition parsed_occurrences (key : string) (searchParams : list (string * string))
  : list Js.Number :=
  omap (fun kv => if decide (fst kv = key) then Js.parseInt (snd kv) else None)
       searchParams.


(** A registry in which the contacts cannot be deleted, an API key that is
    set, a backend that answers every call, and tests that accept no
    string: the concrete data of the examples. *)
Definition sample_config : PeeringDBObjectConfig :=
  {| endpoint := "poc"; name := "Point of Contact";
     description := "Contact information for networks";
     requiredFields := ["net_id"; "role"; "name"; "email"];
     optionalFields := ["phone"; "url"; "visible"];
     relationships := [];
     writeOperations := [POST; PUT; PATCH] |}.

Definition always_resolves : list Event -> HttpRequest -> PeeringDBError + value :=
  fun _ _ => inr VNull.

Definition sample_registry : gmap string PeeringDBObjectConfig :=
  {["poc" := sample_config]}.

Definition no_string : string -> bool := fun _ => false.

(** Three payloads for the creation of an organisation, the second of
    which lacks the required [name], and the records and histories of a
    bulk creation of the three with an answering backend. *)
Definition item_a : gmap string value := {["name" := VString "a"]}.
Definition item_b : gmap string value := ∅.
Definition item_c : gmap string value := {["name" := VString "c"]}.

Definition record_a : BulkItemResult :=
  {| success := true; item := item_a; response := Some VNull; error := None |}.
Definition record_b : BulkItemResult :=
  {| success := false; item := item_b; response := None;
     error := Some (ValidationFailed "org"
                      [{| Zod.code := Zod.invalid_type Zod.pt_string Zod.pt_undefined;
                          Zod.path := ["name"] |}]) |}.
Definition record_c : BulkItemResult :=
  {| success := true; item := item_c; response := Some VNull; error := None |}.

Definition history_a : list Event := [Http (HttpPost "org" (VObject item_a))].
Definition history_c : list Event :=
  [Http (HttpPost "org" (VObject item_a)); SetTimeout 1000;
   Http (HttpPost "org" (VObject item_c))].

(** The schemas [createFieldSchema] and [createObjectSchema] give to a
    field: one of the five kinds of rule, possibly made optional. *)
Inductive field_schema : Zod.ZodType -> Prop :=
| fs_id d : field_schema (id_schema d)
| fs_string checks d : field_schema (Zod.ZodString checks d)
| fs_number checks d : field_schema (Zod.ZodNumber checks d)
| fs_boolean d : field_schema (Zod.ZodBoolean d)
| fs_enum values d : field_schema (Zod.ZodEnum values d)
| fs_optional inner d : field_schema inner -> field_schema (Zod.ZodOptional inner d).

(** The handler registered for a write operation. *)
Definition operation_handler (emailRegex_test url_ok : string -> bool)
           (objects : gmap string PeeringDBObjectConfig)
           (apiKey : option string)
           (axios : list Event -> HttpRequest -> PeeringDBError + value)
           (op : WriteOperation) (objectType : string) (config : PeeringDBObjectConfig)
  : gmap string value -> M ToolResult :=
  match op with
  | POST => create_handler emailRegex_test url_ok objects apiKey axios objectType config
  | PUT => update_handler emailRegex_test url_ok objects apiKey axios objectType config
  | PATCH => patch_handler emailRegex_test url_ok objects apiKey axios objectType config
  | DELETE => delete_handler apiKey axios objectType config
  end.

(** A registry with two names that differ in case only: the descriptor
    of [NET] grants creation alone, that of [net] is the repository's. *)
Definition capitals_config : PeeringDBObjectConfig :=
  {| endpoint := "NET"; name := "Network"; description := "Networks";
     requiredFields := ["name"]; optionalFields := [];
     relationships := []; writeOperations := [POST] |}.

Definition mixed_case_registry : gmap string PeeringDBObjectConfig :=
  <["NET" := capitals_config]> {["net" := net_config]}.

(** The timers in a list of events. *)
Definition timers (evs : list Event) : nat :=
  length (List.filter (fun e => negb (is_http e)) evs).

(** A descriptor that lists a field as required and as optional. *)
Definition overlapping_config : PeeringDBObjectConfig :=
  {| endpoint := "x"; name := "X"; description := "x";
     requiredFields := ["name"]; optionalFields := ["name"];
     relationships := []; writeOperations := all_ops |}.

(** The raw values of the occurrences of [key] in a query, in order. *)
Definition occurrences (key : string) (searchParams : list (string * string))
  : list string :=
  omap (fun kv => if decide (fst kv = key) then Some (snd kv) else None) searchParams.

(** What [parseResourceParams] stores for a raw value under a key that is
    not one of the four numeric parameters. *)
Definition stored_value (key value : string) : ParamValue :=
  if JsString.endsWith "__in" key
  then PList (List.map Js.trim (JsString.split_on "," value))
  else PString value.

(** Whether a string begins with a decimal digit. *)
Definition starts_with_digit (s : string) : bool :=
  match s with
  | String c _ => Js.is_digit c
  | EmptyString => false
  end.

(* ===================================================================== *)
(** ** services/peeringdb-client, the response interceptor *)
(* ===================================================================== *)

(** What the interceptor reads of the error axios rejects with:
    [error.message], [error.response] with its status and data, and
    [error.config?.url]. *)
Record AxiosResponse := {
  response_status : Z;
  response_data : option value
}.

Record AxiosError := {
  axios_message : string;
  axios_response : option AxiosResponse;
  axios_config_url : option string
}.

(** The second function given to [interceptors.response.use]. *)
Definition responseInterceptor (error : AxiosError) : PeeringDBError :=
  let peeringDBError :=
    {| message := axios_message error;
       status := response_status <$> axios_response error;
       data := axios_response error ≫= response_data;
       url := axios_config_url error |} in
  let with_message (m : string) :=
    {| message := m; status := status peeringDBError;
       data := data peeringDBError; url := url peeringDBError |} in
  match status peeringDBError with
  | Some 401 => with_message "Authentication failed. Please check your API key."
  | Some 403 => with_message "Access forbidden. Insufficient permissions."
  | Some 404 => with_message "Resource not found."
  | Some 429 => with_message "Rate limit exceeded. Please try again later."
  | _ => peeringDBError
  end.


(** The properties every object inherits from [Object.prototype]. A lookup
    [obj[name]] of one of these names finds the inherited property when the
    object has none of its own, and an assignment [obj["__proto__"] = v]
    stores no property; the maps of this development hold own properties
    only, so statements about arbitrary names leave these names out. *)
Definition Object_prototype_properties : list string :=
  ["constructor"; "__defineGetter__"; "__defineSetter__"; "hasOwnProperty";
   "__lookupGetter__"; "__lookupSetter__"; "isPrototypeOf";
   "propertyIsEnumerable"; "toString"; "valueOf"; "__proto__"; "toLocaleString"].

(** Whether no name of a registry is, in lower case, one of these names.
    [supportsOperation] looks a name up in lower case; were that an
    inherited name, it would find the inherited property and the
    registration would end in a [TypeError]. *)
Definition no_inherited_names (objects : gmap string PeeringDBObjectConfig) : bool :=
  forallb (fun objectType =>
             negb (includes_str (JsString.toLowerCase objectType)
                                Object_prototype_properties))
          (getObjectTypes objects).

(* ===================================================================== *)
(** * Properties *)
(* ===================================================================== *)

(** ** Query parameters *)

Lemma lookup_assign_eq {V} (key : string) (value : V) (obj : gmap string V) :
  key <> "__proto__" -> assign key value obj !! key = Some value.
Proof.
  intros Hne. unfold assign. rewrite (proj2 (String.eqb_neq _ _) Hne).
  destruct (obj !! key); by rewrite lookup_insert_eq.
Qed.

Lemma lookup_assign_ne {V} (key key' : string) (value : V) (obj : gmap string V) :
  key <> key' -> assign key value obj !! key' = obj !! key'.
Proof.
  intros Hne. unfold assign.
  destruct (obj !! key); [by rewrite lookup_insert_ne|].
  destruct (String.eqb key "__proto__"); [done|by rewrite lookup_insert_ne].
Qed.

Lemma assign_fresh {V} (key : string) (value : V) (validated params : gmap string V) :
  params !! key = None ->
  validated = delete "__proto__" params ->
  assign key value validated = delete "__proto__" (<[key := value]> params).
Proof.
  intros Hfresh ->. unfold assign.
  destruct (String.eqb_spec key "__proto__") as [->|Hne].
  - rewrite lookup_delete_eq. by rewrite delete_insert_eq.
  - rewrite lookup_delete_ne, Hfresh by done. by rewrite delete_insert_ne.
Qed.

(** What [validateQueryParams] returns: its input, less a property named
    [__proto__]. *)
Lemma validateQueryParams_id {V} (params : gmap string V) :
  validateQueryParams params = delete "__proto__" params.
Proof.
  unfold validateQueryParams.
  apply (map_fold_weak_ind (fun r m => r = delete "__proto__" m));
    [by rewrite delete_empty|].
  intros key value m r Hfresh Hr.
  destruct (includes_str key VALID_QUERY_PARAMS); [by apply assign_fresh|].
  destruct (modifierMatch key) as [[fieldName modifier]|]; [|by apply assign_fresh].
  destruct (negb _ && _); by apply assign_fresh.
Qed.

Lemma validateQueryParams_lookup {V} (params : gmap string V) (key : string) :
  key <> "__proto__" -> validateQueryParams params !! key = params !! key.
Proof. intros Hne. rewrite validateQueryParams_id. by apply lookup_delete_ne. Qed.

(** C5, as the code has it. [validateQueryParams] is a total function that
    returns its input map less a property named [__proto__]: every other
    key of the input is a key of the output with the value it had, and the
    output has no property [__proto__] of its own. In particular a key such
    as ["asn__bogus"], which is no standard parameter and whose modifier
    ["bogus"] is not a recognised one, is kept under its literal key with
    its value. *)
Theorem C5_validateQueryParams_keeps_every_key_but_proto :
  (forall (V : Type) (params : gmap string V),
      validateQueryParams params = delete "__proto__" params
      /\ (forall key value,
            key <> "__proto__" ->
            params !! key = Some value ->
            validateQueryParams params !! key = Some value)
      /\ (forall key value,
            validateQueryParams params !! key = Some value ->
            key <> "__proto__" /\ params !! key = Some value))
  /\ includes_str "asn__bogus" VALID_QUERY_PARAMS = false
  /\ modifierMatch "asn__bogus" = Some ("asn", "bogus")
  /\ includes_str "bogus" VALID_QUERY_MODIFIERS = false
  /\ forall (V : Type) (raw : V),
      validateQueryParams ({["asn__bogus" := raw]} : gmap string V)
      = {["asn__bogus" := raw]}.
Proof.
  split.
  - intros V params. split; [apply validateQueryParams_id|]. split.
    + intros key value Hne Hk. by rewrite validateQueryParams_lookup.
    + intros key value. rewrite validateQueryParams_id.
      intros [Hne Hk]%lookup_delete_Some. split; [congruence|done].
  - split; [reflexivity|]. split; [reflexivity|]. split; [reflexivity|].
    intros V raw. rewrite validateQueryParams_id.
    apply delete_id. by apply lookup_singleton_ne.
Qed.

(** C5 as stated fails on the key [__proto__]: the input has a property of
    that name, with a value the validator need not look at, and the output
    has no property at all. *)
Lemma C5_own_proto_key_is_lost :
  ({["__proto__" := VString "x"]} : gmap string value) !! "__proto__"
  = Some (VString "x")
  /\ validateQueryParams ({["__proto__" := VString "x"]} : gmap string value) = ∅
  /\ validateQueryParams ({["__proto__" := VString "x"]} : gmap string value)
     !! "__proto__" = None.
Proof.
  assert (H : validateQueryParams ({["__proto__" := VString "x"]} : gmap string value)
              = ∅).
  { rewrite validateQueryParams_id. apply delete_singleton_eq. }
  split; [apply lookup_singleton_eq|]. split; [exact H|]. by rewrite H.
Qed.

(** ** Numeric parameters *)

Lemma parseResourceParams_numeric_acc key searchParams :
  includes_str key ["limit"; "skip"; "depth"; "since"] = true ->
  forall acc : gmap string ParamValue,
    fold_left
      (fun params kv =>
         let key := fst kv in
         let value := snd kv in
         if includes_str key ["limit"; "skip"; "depth"; "since"] then
           match Js.parseInt value with
           | Some numValue => assign key (PNumber numValue) params
           | None => params
           end
         else if JsString.endsWith "__in" key then
           assign key (PList (List.map Js.trim (JsString.split_on "," value))) params
         else assign key (PString value) params)
      searchParams acc !! key
    = match last (parsed_occurrences key searchParams) with
      | Some n => Some (PNumber n)
      | None => acc !! key
      end.
Proof.
  intros Hkey. induction searchParams as [|[k v] sp IH]; intros acc; [done|].
  cbn [fold_left]. rewrite IH. unfold parsed_occurrences. cbn [omap list_omap fst snd].
  fold (parsed_occurrences key sp).
  destruct (decide (k = key)) as [->|Hne].
  - rewrite Hkey. destruct (Js.parseInt v) as [n|].
    + rewrite last_cons. destruct (last (parsed_occurrences key sp)); [done|].
      rewrite lookup_assign_eq; [done|]. intros ->. by vm_compute in Hkey.
    + done.
  - destruct (last (parsed_occurrences key sp)); [done|].
    destruct (includes_str k _).
    + destruct (Js.parseInt v); [by rewrite lookup_assign_ne|done].
    + destruct (JsString.endsWith "__in" k); by rewrite lookup_assign_ne.
Qed.

(** C6, as the code has it. For [limit], [skip], [depth] and [since], the
    query handed to the client maps the key to the integer that [parseInt]
    reads from the last occurrence whose value parses; when no occurrence
    parses, the key is absent from the output. *)
Theorem C6_numeric_parameter_coerced_or_dropped
        (key : string) (searchParams : list (string * string)) :
  includes_str key ["limit"; "skip"; "depth"; "since"] = true ->
  resourceQuery searchParams !! key
  = PNumber <$> last (parsed_occurrences key searchParams).
Proof.
  intros Hkey. unfold resourceQuery.
  rewrite validateQueryParams_lookup by (by intros ->).
  unfold parseResourceParams. rewrite parseResourceParams_numeric_acc by done.
  by destruct (last _).
Qed.

Lemma C6_numeric_parameter_coerced_or_dropped_witness :
  includes_str "limit" ["limit"; "skip"; "depth"; "since"] = true
  /\ resourceQuery [("limit", "5"); ("limit", "abc")] !! "limit"
     = PNumber <$> last (parsed_occurrences "limit" [("limit", "5"); ("limit", "abc")]).
Proof.
  split.
  - reflexivity.
  - apply (C6_numeric_parameter_coerced_or_dropped "limit"). reflexivity.
Defined.

(** C6 as stated fails: the value ["abc"] of [limit] does not parse, and
    the key is missing from the output instead of carrying ["abc"]. *)
Lemma C6_unparsable_value_is_dropped :
  Js.parseInt "abc" = None
  /\ resourceQuery [("limit", "abc")] !! "limit" = None
  /\ resourceQuery [("limit", "abc")] !! "limit" <> Some (PString "abc").
Proof. vm_compute. repeat split; discriminate. Qed.

(** ** Resource identifiers *)

(** C7, the code at the identifier of the claim: for [peeringdb://net/123]
    the URL has host [net] and path [/123], the first path part is not
    ["peeringdb:"], and the function throws. *)
Theorem C7_validateResourceUri_rejects_resource_uri :
  Js.new_URL "peeringdb://net/123?limit=5"
  = Some {| Js.protocol := "peeringdb:"; Js.host := "net"; Js.pathname := "/123";
            Js.searchParams := [("limit", "5")] |}
  /\ validateResourceUri PEERINGDB_OBJECTS "peeringdb://net/123?limit=5"
     = inl InvalidResourceUriFormat.
Proof. split; vm_compute; reflexivity. Qed.

(** Where [validateResourceUri] does accept an identifier, [limit] stays
    the string of the query: the function stores the raw strings. *)
Lemma validateResourceUri_keeps_strings :
  validateResourceUri PEERINGDB_OBJECTS "x:peeringdb:/net/123?limit=5"
  = inr {| ref_objectType := "net"; ref_id := Some "123";
           ref_params := {["limit" := "5"]} |}.
Proof. vm_compute. reflexivity. Qed.

(** ** Field schemas *)

(** C8, the code at the field of the claim: ["info_type"] starts with
    ["info_"], so the rule for boolean fields answers before the
    enumeration rule is reached. *)
Theorem C8_info_type_gets_boolean_rule (isRequired : bool) :
  createFieldSchema "info_type" isRequired = Zod.ZodBoolean (Some "info_type flag").
Proof. reflexivity. Qed.

(** ** The delete tool *)



(** ** Registration of the tools *)

Lemma get_field_None {A} (k : string) (l : list (string * A)) :
  (forall kv, kv ∈ l -> fst kv <> k) -> get_field k l = None.
Proof.
  induction l as [|[k' v'] l IH]; intros Hl; [done|].
  cbn. destruct (String.eqb k' k) eqn:E.
  - apply String.eqb_eq in E. exfalso. apply (Hl (k', v')); [left|done].
  - apply IH. intros kv Hkv. apply Hl. by right.
Qed.

Lemma tool_name_inj (kind1 kind2 T1 T2 : string) :
  kind1 ∈ ["create"; "update"; "patch"; "delete"; "bulk"] ->
  kind2 ∈ ["create"; "update"; "patch"; "delete"; "bulk"] ->
  tool_name kind1 T1 = tool_name kind2 T2 -> kind1 = kind2 /\ T1 = T2.
Proof.
  intros H1 H2 Heq.
  repeat (apply elem_of_cons in H1 as [->|H1]);
    try (by apply elem_of_nil in H1);
    repeat (apply elem_of_cons in H2 as [->|H2]);
    try (by apply elem_of_nil in H2);
    cbn in Heq; by simplify_eq.
Qed.

Lemma registerObjectTools_names em uo objects apiKey axios T tools name tool :
  registerObjectTools em uo objects apiKey axios T = inr tools ->
  (name, tool) ∈ tools ->
  name = tool_name "bulk" T
  \/ exists op, supportsOperation objects T op = true /\ name = operation_tool op T.
Proof.
  unfold registerObjectTools. destruct (objects !! T) as [config|]; [|done].
  intros [= <-] Hin.
  repeat (apply elem_of_app in Hin as [Hin|Hin]).
  - destruct (supportsOperation objects T POST) eqn:E; [|by apply elem_of_nil in Hin].
    apply list_elem_of_singleton in Hin as [= -> _]. right. by exists POST.
  - destruct (supportsOperation objects T PUT) eqn:E; [|by apply elem_of_nil in Hin].
    apply list_elem_of_singleton in Hin as [= -> _]. right. by exists PUT.
  - destruct (supportsOperation objects T PATCH) eqn:E; [|by apply elem_of_nil in Hin].
    apply list_elem_of_singleton in Hin as [= -> _]. right. by exists PATCH.
  - destruct (supportsOperation objects T DELETE) eqn:E; [|by apply elem_of_nil in Hin].
    apply list_elem_of_singleton in Hin as [= -> _]. right. by exists DELETE.
  - apply list_elem_of_singleton in Hin as [= -> _]. by left.
Qed.

Lemma operation_tool_kind op T :
  exists kind, kind ∈ ["create"; "update"; "patch"; "delete"]
               /\ operation_tool op T = tool_name kind T.
Proof.
  destruct op; eexists; (split; [|reflexivity]); set_solver.
Qed.

Lemma operation_tool_inj op1 op2 T1 T2 :
  operation_tool op1 T1 = operation_tool op2 T2 -> op1 = op2 /\ T1 = T2.
Proof.
  intros Heq. destruct op1, op2; cbn in Heq; by simplify_eq.
Qed.

Lemma operation_tool_not_bulk op T1 T2 :
  operation_tool op T1 <> tool_name "bulk" T2.
Proof. intros Heq. destruct op; cbn in Heq; by simplify_eq. Qed.

(** [supportsOperation] reads the descriptor found under the lower-cased
    name: for a name in lower case, the type's own descriptor. *)
Lemma supportsOperation_lower_case objects objectType config op :
  objects !! objectType = Some config ->
  JsString.toLowerCase objectType = objectType ->
  supportsOperation objects objectType op = bool_decide (op ∈ writeOperations config).
Proof.
  intros Hcfg Hlower. unfold supportsOperation, getObjectConfig.
  by rewrite Hlower, Hcfg.
Qed.

(** No tool is registered for an operation on a type for which
    [supportsOperation] is false. *)
Lemma registerTools_unsupported em uo objects apiKey axios objectType op :
  supportsOperation objects objectType op = false ->
  get_field (operation_tool op objectType) (registerTools em uo objects apiKey axios)
  = None.
Proof.
  intros Hno.
  apply get_field_None. intros [n t] Hin Heq. cbn in Heq. subst n.
  unfold registerTools in Hin.
  apply list_elem_of_In, in_concat in Hin as (tools & Htools & Hin).
  apply in_map_iff in Htools as (T' & <- & _).
  apply list_elem_of_In in Hin.
  destruct (registerObjectTools _ _ _ _ _ T') as [e|ts] eqn:Hreg;
    [by apply elem_of_nil in Hin|].
  destruct (registerObjectTools_names _ _ _ _ _ _ _ _ _ Hreg Hin)
    as [Hbulk|(op' & Hsup & Hname)].
  - by apply operation_tool_not_bulk in Hbulk.
  - apply operation_tool_inj in Hname as [-> ->]. congruence.
Qed.

(** C9, as the code has it. Support for an operation is checked when the
    tools are registered: for an object type of the registry whose name is
    in lower case and whose descriptor does not list an operation among its
    write operations, no tool of that operation is registered under the
    type's name, and a call of that tool name reaches no handler and leaves
    the history of backend calls as it was. *)
Theorem C9_unsupported_operation_has_no_tool
        (emailRegex_test url_ok : string -> bool)
        (objects : gmap string PeeringDBObjectConfig)
        (apiKey : option string)
        (axios : list Event -> HttpRequest -> PeeringDBError + value)
        (objectType : string) (config : PeeringDBObjectConfig) (op : WriteOperation) :
  objects !! objectType = Some config ->
  JsString.toLowerCase objectType = objectType ->
  bool_decide (op ∈ writeOperations config) = false ->
  get_field (operation_tool op objectType)
            (registerTools emailRegex_test url_ok objects apiKey axios) = None
  /\ forall args h,
      callTool emailRegex_test url_ok objects apiKey axios
               (operation_tool op objectType) args h = (ToolNotFound, h).
Proof.
  intros Hcfg Hlower Hno.
  assert (Hnone : get_field (operation_tool op objectType)
                    (registerTools emailRegex_test url_ok objects apiKey axios) = None).
  { apply registerTools_unsupported.
    by rewrite (supportsOperation_lower_case _ _ config). }
  split; [exact Hnone|].
  intros args h. unfold callTool. by rewrite Hnone.
Qed.

Lemma C9_unsupported_operation_has_no_tool_witness :
  sample_registry !! "poc" = Some sample_config
  /\ JsString.toLowerCase "poc" = "poc"
  /\ bool_decide (DELETE ∈ writeOperations sample_config) = false
  /\ callTool no_string no_string sample_registry (Some "key") always_resolves
              "peeringdb_delete_poc" {["id" := VNumber (inject_Z 7)]} []
     = (ToolNotFound, []).
Proof.
  split; [reflexivity|]. split; [reflexivity|]. split; [reflexivity|].
  apply (C9_unsupported_operation_has_no_tool
           no_string no_string sample_registry (Some "key") always_resolves
           "poc" sample_config DELETE).
  - reflexivity.
  - reflexivity.
  - reflexivity.
Defined.

(** C9 as stated fails on the bulk tool, which is registered for every
    object type and does not ask [supportsOperation]: with a registry whose
    [poc] type excludes DELETE, a bulk delete of [{id: 7}] sends
    [DELETE /poc/7]. *)
Lemma C9_bulk_delete_reaches_backend :
  supportsOperation sample_registry "poc" DELETE = false
  /\ get_field "peeringdb_bulk_poc"
               (registerTools no_string no_string sample_registry (Some "key")
                              always_resolves)
     = Some (BulkTool
               (fun fuel =>
                  bulk_handler no_string no_string sample_registry (Some "key")
                               always_resolves fuel "poc" sample_config))
  /\ bulk_handler no_string no_string sample_registry (Some "key") always_resolves
                  1%nat "poc" sample_config
                  {| operation := bulk_delete;
                     items := [{["id" := VNumber (inject_Z 7)]}];
                     batch_size := 10 |} []
     = (Some (BulkDone
                {| successful := 1; failed := 0;
                   results := [{| success := true;
                                  item := {["id" := VNumber (inject_Z 7)]};
                                  response := Some VNull;
                                  error := None |}] |}),
        [Http (HttpDelete "poc" (Some (VNumber (inject_Z 7))))]).
Proof.
  split; [reflexivity|]. split.
  - unfold registerTools.
    change (getObjectTypes sample_registry) with ["poc"].
    cbn [List.map concat]. unfold registerObjectTools.
    change (sample_registry !! "poc") with (Some sample_config).
    change (supportsOperation sample_registry "poc" POST) with true.
    change (supportsOperation sample_registry "poc" PUT) with true.
    change (supportsOperation sample_registry "poc" PATCH) with true.
    change (supportsOperation sample_registry "poc" DELETE) with false.
    reflexivity.
  - vm_compute. reflexivity.
Qed.

(** ** Parsing an object against a shape *)

Section ObjectParsing.
Variable emailRegex_test : string -> bool.
Variable url_ok : string -> bool.

Local Notation "'parse_field'" :=
  (Zod.object_pair (Zod._parse emailRegex_test url_ok)).

Lemma parse_object_unfold shape p props :
  Zod._parse emailRegex_test url_ok (Zod.ZodObject shape) p (Some (VObject props))
  = let pairs := List.map (parse_field p props) shape in
    {| Zod.status := fst (Zod.mergeObject Zod.valid ∅ pairs);
       Zod.out := snd (Zod.mergeObject Zod.valid ∅ pairs);
       Zod.issues := concat (List.map (fun pr => Zod.issues (Zod.pair_value pr)) pairs) |}.
Proof.
  cbn [Zod._parse].
  by destruct (Zod.mergeObject Zod.valid ∅ (List.map (parse_field p props) shape)).
Qed.

(** Only the properties named by the shape are read. *)
Lemma parse_object_ext shape p props1 props2 :
  (forall k, k ∈ shape.*1 -> props1 !! k = props2 !! k) ->
  Zod._parse emailRegex_test url_ok (Zod.ZodObject shape) p (Some (VObject props1))
  = Zod._parse emailRegex_test url_ok (Zod.ZodObject shape) p (Some (VObject props2)).
Proof.
  intros Hext. rewrite !parse_object_unfold.
  assert (Hmap : List.map (parse_field p props1) shape
                 = List.map (parse_field p props2) shape).
  { apply map_ext_in. intros [k s] Hin. unfold Zod.object_pair. cbn.
    rewrite (Hext k); [done|].
    apply list_elem_of_fmap. exists (k, s). split; [done|]. by apply list_elem_of_In. }
  cbn zeta. by rewrite Hmap.
Qed.

Lemma mergeObject_aborted st finalObject pairs :
  (exists pr, pr ∈ pairs /\ Zod.status (Zod.pair_value pr) = Zod.aborted) ->
  Zod.mergeObject st finalObject pairs = (Zod.aborted, None).
Proof.
  revert st finalObject. induction pairs as [|pr0 pairs IH]; intros st fo (pr & Hin & Hst).
  - by apply elem_of_nil in Hin.
  - cbn. apply elem_of_cons in Hin as [<-|Hin].
    + by rewrite Hst.
    + destruct (Zod.status (Zod.pair_value pr0)); [| |done]; apply IH; eauto.
Qed.

(** The stored properties come from the pairs. *)
Lemma mergeObject_keys st finalObject pairs st' m k :
  Zod.mergeObject st finalObject pairs = (st', Some (VObject m)) ->
  is_Some (m !! k) ->
  is_Some (finalObject !! k) \/ k ∈ List.map Zod.pair_key pairs.
Proof.
  revert st finalObject. induction pairs as [|pr pairs IH]; intros st fo Hm Hk.
  - cbn in Hm. injection Hm as _ <-. by left.
  - cbn in Hm. destruct (Zod.status (Zod.pair_value pr)) eqn:Est; [| |done].
    all: apply IH in Hm; [|done]; destruct Hm as [Hm|Hm]; [|right; by right].
    all: destruct (negb _); [|by left].
    all: destruct (Zod.out (Zod.pair_value pr)); [|by left].
    all: destruct (decide (Zod.pair_key pr = k)) as [<-|Hne];
      [right; by left|left; by rewrite lookup_insert_ne in Hm].
Qed.

Lemma mergeObject_out st finalObject pairs st' v :
  Zod.mergeObject st finalObject pairs = (st', Some v) -> exists m, v = VObject m.
Proof.
  revert st finalObject. induction pairs as [|pr pairs IH]; intros st fo Hm.
  - cbn in Hm. injection Hm as _ <-. eauto.
  - cbn in Hm. destruct (Zod.status (Zod.pair_value pr)); [| |done]; eauto.
Qed.

(** What [parse] returns for an object schema is an object whose
    properties are named by the shape. *)
Lemma parse_object_keys shape props v :
  Zod.parse emailRegex_test url_ok (Zod.ZodObject shape) (VObject props) = inr v ->
  exists m, v = VObject m /\ forall k, is_Some (m !! k) -> k ∈ shape.*1.
Proof.
  unfold Zod.parse. rewrite parse_object_unfold. cbn zeta. cbn [Zod.status Zod.out].
  destruct (Zod.mergeObject Zod.valid ∅ (List.map (parse_field [] props) shape))
    as [st [w|]] eqn:Hm; cbn [fst snd]; [|by destruct st].
  destruct st; [|done|done]. intros [= <-].
  destruct (mergeObject_out _ _ _ _ _ Hm) as [m ->]. exists m. split; [done|].
  intros k Hk. destruct (mergeObject_keys _ _ _ _ _ _ Hm Hk) as [Hk'|Hk'].
  - rewrite lookup_empty in Hk'. by destruct Hk'.
  - apply list_elem_of_In, in_map_iff in Hk' as (pr & <- & Hpr).
    apply in_map_iff in Hpr as (kv & <- & Hkv).
    apply list_elem_of_fmap. exists kv. split; [done|]. by apply list_elem_of_In.
Qed.

(** A shape with a non-optional [id] of the string-or-number kind rejects
    every object that has no [id]. *)
Lemma parse_object_without_id shape d props :
  ("id", Zod.ZodUnion [Zod.string_; Zod.number_] d) ∈ shape ->
  props !! "id" = None ->
  exists issues,
    Zod.parse emailRegex_test url_ok (Zod.ZodObject shape) (VObject props) = inl issues
    /\ {| Zod.code := Zod.invalid_union; Zod.path := ["id"] |} ∈ issues.
Proof.
  intros Hin Hid. unfold Zod.parse. rewrite parse_object_unfold.
  cbn zeta. cbn [Zod.status Zod.out].
  set (pairs := List.map (parse_field [] props) shape).
  set (pr := parse_field [] props ("id", Zod.ZodUnion [Zod.string_; Zod.number_] d)).
  assert (Hpr : pr ∈ pairs).
  { apply list_elem_of_In, in_map. by apply list_elem_of_In. }
  assert (Hval : Zod.pair_value pr
                 = Zod.INVALID [{| Zod.code := Zod.invalid_union; Zod.path := ["id"] |}]).
  { unfold pr, Zod.object_pair. cbn [fst snd Zod.pair_value]. rewrite Hid. reflexivity. }
  rewrite (mergeObject_aborted Zod.valid ∅ pairs).
  - cbn. eexists. split; [done|].
    apply list_elem_of_In, in_concat. eexists. split.
    + apply in_map_iff. exists pr. split; [done|]. by apply list_elem_of_In.
    + rewrite Hval. by left.
  - exists pr. split; [done|]. by rewrite Hval.
Qed.

(** A patch shape accepts the object that holds an identifier only, and
    returns it. *)
Lemma mergeObject_patch_shape shape p X finalObject :
  Forall patch_entry shape ->
  (exists s, X = VString s) \/ (exists q, X = VNumber q) ->
  let pairs := List.map (parse_field p {["id" := X]}) shape in
  Zod.mergeObject Zod.valid finalObject pairs
  = (Zod.valid,
     Some (VObject (if bool_decide ("id" ∈ shape.*1)
                    then <["id" := X]> finalObject else finalObject)))
  /\ concat (List.map (fun pr => Zod.issues (Zod.pair_value pr)) pairs) = [].
Proof.
  intros Hshape HX. revert finalObject.
  induction Hshape as [|[k s] shape Hks Hshape IH]; intros fo; [done|].
  cbn [List.map Zod.mergeObject concat fmap list_fmap fst].
  destruct Hks as [[Hk [d Hs]]|[Hk Hs]]; cbn [fst snd] in Hk, Hs.
  - subst k s.
    assert (Hval : Zod.pair_value (parse_field p {["id" := X]} ("id", id_schema d))
                   = Zod.OK (Some X)).
    { unfold Zod.object_pair. cbn [fst snd Zod.pair_value].
      rewrite lookup_singleton_eq.
      destruct HX as [[x ->]|[x ->]]; reflexivity. }
    rewrite Hval. cbn [Zod.status Zod.out Zod.issues Zod.OK Zod.pair_key
                       Zod.object_pair fst negb app].
    change (String.eqb "id" "__proto__") with false. cbn [negb].
    destruct (IH (<["id" := X]> fo)) as [-> ->]. split; [|done].
    rewrite insert_insert_eq.
    rewrite (bool_decide_eq_true_2 ("id" ∈ "id" :: shape.*1)) by left.
    by destruct (bool_decide ("id" ∈ shape.*1)).
  - destruct s as [| | | | |inner d|]; try discriminate Hs.
    assert (Hval : Zod.pair_value
                     (parse_field p {["id" := X]} (k, Zod.ZodOptional inner d))
                   = Zod.OK None).
    { unfold Zod.object_pair. cbn [fst snd Zod.pair_value].
      by rewrite lookup_singleton_ne. }
    rewrite Hval. cbn [Zod.status Zod.out Zod.issues Zod.OK app].
    assert (Hiff : bool_decide ("id" ∈ k :: shape.*1) = bool_decide ("id" ∈ shape.*1)).
    { apply bool_decide_ext. rewrite elem_of_cons. naive_solver. }
    rewrite Hiff. destruct (negb _); by destruct (IH fo) as [-> ->].
Qed.

Lemma parse_patch_shape shape X :
  Forall patch_entry shape ->
  "id" ∈ shape.*1 ->
  (exists s, X = VString s) \/ (exists q, X = VNumber q) ->
  Zod.parse emailRegex_test url_ok (Zod.ZodObject shape) (VObject {["id" := X]})
  = inr (VObject {["id" := X]}).
Proof.
  intros Hshape Hid HX. unfold Zod.parse. rewrite parse_object_unfold. cbv zeta.
  destruct (mergeObject_patch_shape shape [] X ∅ Hshape HX) as [-> Hiss].
  cbn [fst snd Zod.status Zod.out].
  by rewrite (bool_decide_eq_true_2 _ Hid).
Qed.
End ObjectParsing.

(** ** The shapes [createObjectSchema] builds *)

Lemma get_field_set_field {A} (k k' : string) (v : A) (l : list (string * A)) :
  get_field k (set_field k' v l)
  = if String.eqb k' k then Some v else get_field k l.
Proof.
  induction l as [|[k0 v0] l IH]; cbn.
  - done.
  - destruct (String.eqb k0 k') eqn:E0; cbn.
    + apply String.eqb_eq in E0 as ->. by destruct (String.eqb k' k).
    + destruct (String.eqb k0 k) eqn:E1.
      * apply String.eqb_eq in E1 as ->.
        destruct (String.eqb k' k) eqn:E2; [|done].
        apply String.eqb_eq in E2 as ->. by rewrite String.eqb_refl in E0.
      * exact IH.
Qed.

Lemma get_field_elem_of {A} (k : string) (v : A) (l : list (string * A)) :
  get_field k l = Some v -> (k, v) ∈ l.
Proof.
  induction l as [|[k0 v0] l IH]; cbn; [done|].
  destruct (String.eqb k0 k) eqn:E.
  - apply String.eqb_eq in E as ->. intros [= ->]. by left.
  - intros H. right. by apply IH.
Qed.

Lemma get_field_is_Some {A} (k : string) (l : list (string * A)) :
  k ∈ l.*1 <-> is_Some (get_field k l).
Proof.
  induction l as [|[k0 v0] l IH]; cbn.
  - split; [by intros ?%elem_of_nil|by intros [? ?]].
  - destruct (String.eqb k0 k) eqn:E.
    + apply String.eqb_eq in E as ->. split; [by eauto|by left].
    + apply String.eqb_neq in E. rewrite <- IH. rewrite elem_of_cons. naive_solver.
Qed.

Lemma set_field_keys {A} (k k' : string) (v : A) (l : list (string * A)) :
  k ∈ (set_field k' v l).*1 <-> k = k' \/ k ∈ l.*1.
Proof.
  rewrite !get_field_is_Some, get_field_set_field.
  destruct (String.eqb k' k) eqn:E.
  - apply String.eqb_eq in E as ->. naive_solver.
  - apply String.eqb_neq in E. naive_solver.
Qed.

Lemma set_field_Forall {A} (P : string * A -> Prop) k v (l : list (string * A)) :
  P (k, v) -> Forall P l -> Forall P (set_field k v l).
Proof.
  intros Hkv. induction 1 as [|[k0 v0] l H0 Hl IH]; cbn.
  - by constructor.
  - destruct (String.eqb k0 k); by constructor.
Qed.

Section Shapes.
Variable config : PeeringDBObjectConfig.
Hypothesis id_not_optional : includes_str "id" (optionalFields config) = false.

Lemma id_free (f : string) : f ∈ optionalFields config -> f <> "id".
Proof.
  intros Hf ->. unfold includes_str in id_not_optional.
  by apply bool_decide_eq_false in id_not_optional.
Qed.

Lemma addRequiredFields_id (l : list (string * Zod.ZodType)) :
  (exists d, get_field "id" l = Some (id_schema d)) ->
  exists d, get_field "id" (addRequiredFields config l) = Some (id_schema d).
Proof.
  unfold addRequiredFields. revert l.
  induction (requiredFields config) as [|f fields IH]; intros l Hl; [done|].
  cbn [fold_left]. apply IH. rewrite get_field_set_field.
  destruct (String.eqb f "id") eqn:E; [|done].
  apply String.eqb_eq in E as ->. by eexists.
Qed.

Lemma addOptionalFields_spec (op : Operation) (l : list (string * Zod.ZodType)) :
  let l' := addOptionalFields config op l in
  get_field "id" l' = get_field "id" l
  /\ (Forall patch_entry l -> Forall patch_entry l')
  /\ forall k, k ∈ l'.*1 <-> k ∈ l.*1 \/ k ∈ optionalFields config.
Proof.
  unfold addOptionalFields. revert l. generalize id_free.
  generalize (optionalFields config) as fields.
  induction fields as [|f fields IH]; intros Hfree l.
  - split; [done|]. split; [done|]. intros k. rewrite elem_of_nil. naive_solver.
  - cbn [fold_left].
    set (s := Zod.optional _).
    assert (Hfree' : forall f', f' ∈ fields -> f' <> "id")
      by (intros f' Hf'; apply Hfree; by right).
    destruct (IH Hfree' (set_field f s l)) as (IH1 & IH2 & IH3).
    assert (Hf : f <> "id") by (apply Hfree; by left).
    split; [|split].
    + rewrite IH1, get_field_set_field.
      destruct (String.eqb f "id") eqn:E; [|done].
      by apply String.eqb_eq in E.
    + intros Hl. apply IH2, set_field_Forall; [|done]. right. by split.
    + intros k. rewrite IH3, set_field_keys, elem_of_cons. naive_solver.
Qed.

Lemma makeOptionalExceptId_spec (l : list (string * Zod.ZodType)) :
  let l' := makeOptionalExceptId l in
  get_field "id" l' = get_field "id" l
  /\ (Forall patch_entry l -> Forall patch_entry l')
  /\ forall k, k ∈ l'.*1 <-> k ∈ l.*1.
Proof.
  unfold makeOptionalExceptId. cbv zeta.
  match goal with |- context [fold_left ?f _ _] => set (step := f) end.
  assert (Hgen : forall keys l0,
             get_field "id" (fold_left step keys l0) = get_field "id" l0
             /\ (Forall patch_entry l0 -> Forall patch_entry (fold_left step keys l0))
             /\ forall k, k ∈ (fold_left step keys l0).*1 <-> k ∈ l0.*1);
    [|apply Hgen].
  clear l. induction keys as [|key keys IH]; intros l; [done|].
  cbn [fold_left]. unfold step at 2 4 6. 
  destruct (get_field key l) as [s|] eqn:Hs; [|by apply IH].
  destruct (String.eqb key "id") eqn:E; cbn [negb]; [by apply IH|].
  destruct (IH (set_field key (Zod.optional s) l)) as (IH1 & IH2 & IH3).
  split; [|split].
  - by rewrite IH1, get_field_set_field, E.
  - intros Hl. apply IH2, set_field_Forall; [|done]. right. split; [|done].
    cbn. by apply String.eqb_neq.
  - intros k. rewrite IH3, set_field_keys.
    assert (key ∈ l.*1) by (apply get_field_is_Some; by rewrite Hs).
    naive_solver.
Qed.

(** The schemas of update and patch hold a non-optional [id]. *)
Lemma objectSchemaFields_id (op : Operation) :
  op = update \/ op = patch ->
  exists d, ("id", id_schema d) ∈ objectSchemaFields config op.
Proof.
  intros Hop.
  assert (exists d, get_field "id" (objectSchemaFields config op) = Some (id_schema d))
    as [d Hd]; [|exists d; by apply get_field_elem_of].
  unfold objectSchemaFields. cbv zeta.
  destruct Hop as [-> | ->].
  - change (bool_decide (update = update)) with true.
    change (bool_decide (update = patch)) with false.
    change (bool_decide (update = create)) with false.
    cbn [orb].
    destruct (addOptionalFields_spec update (addRequiredFields config (addIdField config [])))
      as (-> & _ & _).
    apply addRequiredFields_id. by eexists.
  - change (bool_decide (patch = update)) with false.
    change (bool_decide (patch = patch)) with true.
    change (bool_decide (patch = create)) with false.
    cbn [orb].
    destruct (makeOptionalExceptId_spec (addOptionalFields config patch (addIdField config [])))
      as (-> & _ & _).
    destruct (addOptionalFields_spec patch (addIdField config [])) as (-> & _ & _).
    by eexists.
Qed.

(** The patch schema: the identifier and the optional fields of the
    descriptor, each of the latter optional. *)
Lemma objectSchemaFields_patch :
  Forall patch_entry (objectSchemaFields config patch)
  /\ forall k, k ∈ (objectSchemaFields config patch).*1
               <-> k = "id" \/ k ∈ optionalFields config.
Proof.
  unfold objectSchemaFields. cbv zeta.
  change (bool_decide (patch = update)) with false.
  change (bool_decide (patch = patch)) with true.
  change (bool_decide (patch = create)) with false.
  cbn [orb].
  assert (Hstart : Forall patch_entry (addIdField config [])).
  { constructor; [|constructor]. left. split; [done|]. by eexists. }
  destruct (makeOptionalExceptId_spec (addOptionalFields config patch (addIdField config [])))
    as (_ & H1 & H2).
  destruct (addOptionalFields_spec patch (addIdField config [])) as (_ & H3 & H4).
  split; [by apply H1, H3|].
  intros k. rewrite H2, H4. cbn. rewrite list_elem_of_singleton. naive_solver.
Qed.
End Shapes.

(** ** The registry of the repository *)

Lemma PEERINGDB_OBJECTS_lookup (objectType : string) (config : PeeringDBObjectConfig) :
  PEERINGDB_OBJECTS !! objectType = Some config ->
  (objectType, config) ∈ PEERINGDB_OBJECTS_entries.
Proof. apply elem_of_list_to_map_2. Qed.

(** No descriptor lists [id] among its optional fields. *)
Lemma PEERINGDB_OBJECTS_id_not_optional (objectType : string) (config : PeeringDBObjectConfig) :
  PEERINGDB_OBJECTS !! objectType = Some config ->
  includes_str "id" (optionalFields config) = false.
Proof.
  intros Hin%PEERINGDB_OBJECTS_lookup.
  assert (Hall : Forall (fun kv => includes_str "id" (optionalFields (snd kv)) = false)
                        PEERINGDB_OBJECTS_entries) by (repeat constructor).
  rewrite Forall_forall in Hall. exact (Hall _ Hin).
Qed.

(** ** Validation of a payload *)

Lemma validateObjectData_unfold emailRegex_test url_ok objects objectType config data op :
  objects !! objectType = Some config ->
  validateObjectData emailRegex_test url_ok objects objectType data op
  = match Zod.parse emailRegex_test url_ok
                    (Zod.ZodObject (objectSchemaFields config op)) (VObject data) with
    | inr v => inr v
    | inl issues => inl (ValidationFailed objectType issues)
    end.
Proof.
  intros Hcfg. unfold validateObjectData, createObjectSchema. by rewrite Hcfg.
Qed.

Lemma parse_ext emailRegex_test url_ok shape props1 props2 :
  (forall k, k ∈ shape.*1 -> props1 !! k = props2 !! k) ->
  Zod.parse emailRegex_test url_ok (Zod.ZodObject shape) (VObject props1)
  = Zod.parse emailRegex_test url_ok (Zod.ZodObject shape) (VObject props2).
Proof.
  intros Hext. unfold Zod.parse.
  by rewrite (parse_object_ext emailRegex_test url_ok shape [] props1 props2 Hext).
Qed.

(** C2, as the code has it. The schema is a plain [z.object]: a property
    of the payload that the schema does not name is not read. Validation
    gives the same outcome as on the payload without such properties, and
    a validated result holds properties of the schema only: the extra ones
    are dropped without an error. *)
Theorem C2_unknown_fields_are_dropped
        (emailRegex_test url_ok : string -> bool)
        (objects : gmap string PeeringDBObjectConfig)
        (objectType : string) (config : PeeringDBObjectConfig)
        (op : Operation) (data : gmap string value) :
  objects !! objectType = Some config ->
  let known := (objectSchemaFields config op).*1 in
  validateObjectData emailRegex_test url_ok objects objectType data op
  = validateObjectData emailRegex_test url_ok objects objectType
                       (filter (fun kv => fst kv ∈ known) data) op
  /\ forall v,
      validateObjectData emailRegex_test url_ok objects objectType data op = inr v ->
      exists m, v = VObject m /\ forall k, is_Some (m !! k) -> k ∈ known.
Proof.
  intros Hcfg known. rewrite !(validateObjectData_unfold _ _ _ _ config) by done.
  split.
  - rewrite (parse_ext _ _ _ data (filter (fun kv => fst kv ∈ known) data)); [done|].
    intros k Hk. destruct (data !! k) as [x|] eqn:Hx.
    + symmetry. by apply map_lookup_filter_Some_2.
    + symmetry. apply map_lookup_filter_None_2. by left.
  - intros v Hv.
    destruct (Zod.parse _ _ _ _) as [iss|w] eqn:Hp; [done|].
    injection Hv as ->. by apply (parse_object_keys _ _ _ _ _ Hp).
Qed.

Lemma C2_unknown_fields_are_dropped_witness :
  PEERINGDB_OBJECTS !! "org" = Some org_config
  /\ validateObjectData no_string no_string PEERINGDB_OBJECTS "org"
       (<["name" := VString "X"]> {["bogus" := VString "y"]}) create
     = validateObjectData no_string no_string PEERINGDB_OBJECTS "org"
         (filter (fun kv => fst kv ∈ (objectSchemaFields org_config create).*1)
                 (<["name" := VString "X"]> {["bogus" := VString "y"]})) create.
Proof.
  split.
  - reflexivity.
  - apply (C2_unknown_fields_are_dropped
             no_string no_string PEERINGDB_OBJECTS "org" org_config create
             (<["name" := VString "X"]> {["bogus" := VString "y"]})).
    reflexivity.
Defined.

(** C2 as stated fails: the payload [{name: "X", bogus: "y"}] for the
    creation of an organisation holds the field [bogus], which the schema
    does not have, and validation succeeds with [{name: "X"}]. *)
Lemma C2_unknown_field_is_accepted :
  get_field "bogus" (objectSchemaFields org_config create) = None
  /\ validateObjectData no_string no_string PEERINGDB_OBJECTS "org"
       (<["name" := VString "X"]> {["bogus" := VString "y"]}) create
     = inr (VObject {["name" := VString "X"]}).
Proof. split; vm_compute; reflexivity. Qed.

(** ** The schema of a partial update *)

(** C3, as the code has it. For every registered object type the patch
    schema holds the identifier, which is required (a string or a number,
    not optional), and the fields of the descriptor's optional list, each
    optional; it holds nothing else, so a field that the descriptor lists
    as required only is not part of it. Validation of [{id: X}] succeeds for
    every string or number [X] and returns [{id: X}]. *)
Theorem C3_patch_schema_is_id_and_optional_fields
        (emailRegex_test url_ok : string -> bool)
        (objectType : string) (config : PeeringDBObjectConfig) :
  PEERINGDB_OBJECTS !! objectType = Some config ->
  let shape := objectSchemaFields config patch in
  createObjectSchema PEERINGDB_OBJECTS objectType patch = inr (Zod.ZodObject shape)
  /\ (exists d, get_field "id" shape = Some (id_schema d))
  /\ (forall f, f ∈ optionalFields config ->
                exists s, get_field f shape = Some s /\ is_optional s = true)
  /\ (forall f, f ∈ shape.*1 <-> f = "id" \/ f ∈ optionalFields config)
  /\ (forall X, (exists s, X = VString s) \/ (exists q, X = VNumber q) ->
                validateObjectData emailRegex_test url_ok PEERINGDB_OBJECTS
                                   objectType {["id" := X]} patch
                = inr (VObject {["id" := X]})).
Proof.
  intros Hcfg shape.
  pose proof (PEERINGDB_OBJECTS_id_not_optional _ _ Hcfg) as Hid.
  destruct (objectSchemaFields_patch config Hid) as [Hentries Hkeys].
  fold shape in Hentries, Hkeys.
  assert (Hget : forall f, f ∈ shape.*1 ->
                           exists s, get_field f shape = Some s /\ patch_entry (f, s)).
  { intros f [s Hs]%get_field_is_Some. exists s. split; [done|].
    rewrite Forall_forall in Hentries. by apply Hentries, get_field_elem_of. }
  split; [|split; [|split; [|split]]].
  - unfold createObjectSchema. by rewrite Hcfg.
  - destruct (Hget "id") as (s & Hs & [[_ [d Hd]]|[Hne _]]).
    + apply Hkeys. by left.
    + cbn in Hd. subst s. by exists d.
    + by cbn in Hne.
  - intros f Hf. destruct (Hget f) as (s & Hs & [[Hfid _]|[_ Hopt]]).
    + apply Hkeys. by right.
    + cbn in Hfid. subst f. by apply (id_free config Hid) in Hf.
    + by exists s.
  - exact Hkeys.
  - intros X HX. rewrite (validateObjectData_unfold _ _ _ _ config) by done.
    fold shape. rewrite parse_patch_shape; [done|done| |done].
    apply Hkeys. by left.
Qed.

Lemma C3_patch_schema_is_id_and_optional_fields_witness :
  PEERINGDB_OBJECTS !! "net" = Some net_config
  /\ validateObjectData no_string no_string PEERINGDB_OBJECTS "net"
                        {["id" := VString "123"]} patch
     = inr (VObject {["id" := VString "123"]}).
Proof.
  split.
  - reflexivity.
  - apply (C3_patch_schema_is_id_and_optional_fields no_string no_string "net" net_config).
    + reflexivity.
    + left. by exists "123".
Defined.

(** C3 as stated fails: [name] is a required field of an organisation,
    and the patch schema of organisations has no [name]. *)
Lemma C3_patch_schema_lacks_required_field :
  includes_str "name" (requiredFields org_config) = true
  /\ createObjectSchema PEERINGDB_OBJECTS "org" patch
     = inr (Zod.ZodObject (objectSchemaFields org_config patch))
  /\ get_field "name" (objectSchemaFields org_config patch) = None.
Proof. repeat split. Qed.

(** ** Update and patch *)

(** Without an [id], the payload of an update or a patch is rejected. *)
Lemma validateObjectData_without_id
      emailRegex_test url_ok objectType config op (data : gmap string value) :
  PEERINGDB_OBJECTS !! objectType = Some config ->
  op = update \/ op = patch ->
  data !! "id" = None ->
  exists issues,
    validateObjectData emailRegex_test url_ok PEERINGDB_OBJECTS objectType data op
    = inl (ValidationFailed objectType issues)
    /\ {| Zod.code := Zod.invalid_union; Zod.path := ["id"] |} ∈ issues.
Proof.
  intros Hcfg Hop Hid.
  pose proof (PEERINGDB_OBJECTS_id_not_optional _ _ Hcfg) as Hnot.
  destruct (objectSchemaFields_id config Hnot op Hop) as [d Hd].
  destruct (parse_object_without_id emailRegex_test url_ok _ d data Hd Hid)
    as (issues & Hparse & Hin).
  exists issues. split; [|done].
  rewrite (validateObjectData_unfold _ _ _ _ config) by done. by rewrite Hparse.
Qed.

Section BulkOfRejectedItems.
Variable emailRegex_test : string -> bool.
Variable url_ok : string -> bool.
Variable objects : gmap string PeeringDBObjectConfig.
Variable apiKey : option string.
Variable axios : list Event -> HttpRequest -> PeeringDBError + value.
Variable objectType : string.
Variable config : PeeringDBObjectConfig.
Variable args : BulkArgs.

(** Every item of the run is thrown out before the client is reached, and
    recorded as a failure of some kind [rejection]. *)
Variable rejection : BulkItemResult -> gmap string value -> Prop.
Hypothesis rejected :
  forall it h, exists r,
    bulk_item emailRegex_test url_ok objects apiKey axios objectType config
              (operation args) it h = (inr r, h)
    /\ rejection r it.

Local Notation "'run_batch'" :=
  (bulk_batch emailRegex_test url_ok objects apiKey axios objectType config
              (operation args)).
Local Notation "'run_loop'" :=
  (bulk_loop emailRegex_test url_ok objects apiKey axios).



Lemma js_slice_batch {A} (l : list A) (i bs : Z) :
  0 <= i < Z.of_nat (length l) -> 0 < bs ->
  js_slice l i (i + bs) ++ drop (Z.to_nat (i + bs)) l = drop (Z.to_nat i) l.
Proof.
  intros Hi Hbs. unfold js_slice, slice_index.
  rewrite (proj2 (Z.ltb_ge i 0)) by lia.
  rewrite (proj2 (Z.ltb_ge (i + bs) 0)) by lia.
  rewrite (Z.min_l i) by lia.
  rewrite <- (take_drop (Z.to_nat bs) (drop (Z.to_nat i) l)) at 2.
  rewrite drop_drop, <- Z2Nat.inj_add by lia. f_equal.
  destruct (Z.le_ge_cases (i + bs) (Z.of_nat (length l))) as [Hle|Hge].
  - rewrite Z.min_l by lia. f_equal. lia.
  - rewrite Z.min_r by lia.
    rewrite !take_ge; [done| |]; rewrite length_drop; lia.
Qed.

End BulkOfRejectedItems.






(** ** Bulk runs *)

Section BulkRun.
Variable emailRegex_test : string -> bool.
Variable url_ok : string -> bool.
Variable objects : gmap string PeeringDBObjectConfig.
Variable apiKey : option string.
Variable axios : list Event -> HttpRequest -> PeeringDBError + value.
Variable objectType : string.
Variable config : PeeringDBObjectConfig.

Local Notation "'run_item'" :=
  (bulk_item emailRegex_test url_ok objects apiKey axios objectType config).
Local Notation "'run_batch'" :=
  (bulk_batch emailRegex_test url_ok objects apiKey axios objectType config).
Local Notation "'run_loop'" :=
  (bulk_loop emailRegex_test url_ok objects apiKey axios).

Lemma call_history request h :
  exists r, call axios request h = (r, h ++ [Http request]).
Proof. unfold call. destruct (axios h request); by eexists. Qed.

Lemma client_history request h :
  exists r evs,
    bind (validateApiKey apiKey) (fun _ => call axios request) h = (r, h ++ evs)
    /\ forallb is_http evs = true.
Proof.
  unfold bind, validateApiKey. destruct (negb (hasApiKey apiKey)); cbn.
  - exists (inl ApiKeyRequired), []. by rewrite app_nil_r.
  - destruct (call_history request h) as [r ->]. by exists r, [Http request].
Qed.

(** An item always yields a record for that item, and adds at most HTTP
    calls to the history: the timer is not its business. *)
Lemma bulk_item_history op it h :
  exists r evs,
    run_item op it h = (inr r, h ++ evs)
    /\ item r = it /\ forallb is_http evs = true.
Proof.
  unfold bulk_item, try_catch. unfold bind at 1.
  assert (Hcases : forall (m : M value),
             (exists r evs, m h = (r, h ++ evs) /\ forallb is_http evs = true) ->
             exists r evs,
               match (match m h with
                      | (inr a, h') =>
                          ret {| success := true; item := it;
                                 response := Some a; error := None |} h'
                      | (inl e, h') => (inl e, h')
                      end) with
               | (inr a, h') => (inr a, h')
               | (inl e, h') =>
                   ret {| success := false; item := it;
                          response := None; error := Some e |} h'
               end = (inr r, h ++ evs)
               /\ item r = it /\ forallb is_http evs = true).
  { intros m (r & evs & -> & Hevs). destruct r as [e|a]; cbn; by eauto. }
  apply Hcases. destruct op.
  - unfold bind at 1.
    destruct (validateObjectData _ _ _ _ it create) as [e|v]; cbn.
    + exists (inl e), []. by rewrite app_nil_r.
    + apply client_history.
  - cbv zeta. unfold bind at 1.
    destruct (validateObjectData _ _ _ _ (delete "id" it) update) as [e|v]; cbn.
    + exists (inl e), []. by rewrite app_nil_r.
    + apply client_history.
  - apply client_history.
Qed.

Lemma bulk_batch_cons op it batch results h r h' :
  run_item op it h = (inr r, h') ->
  run_batch op (it :: batch) results h = run_batch op batch (results ++ [r]) h'.
Proof. intros Hr. cbn [bulk_batch]. unfold bind at 1. by rewrite Hr. Qed.
End BulkRun.

(** C4. A bulk run over [A; B; C] with batch size 2 in which [A] and [C]
    succeed and [B] fails returns the three records in the order [A], [B],
    [C], counts two successes and one failure, goes on after the failure
    of [B], and sets exactly one timer: after the events of [A] and [B] and
    before those of [C]; nothing follows the events of [C]. *)
Theorem C4_bulk_run_of_three_items_in_two_batches
        (emailRegex_test url_ok : string -> bool)
        (objects : gmap string PeeringDBObjectConfig)
        (apiKey : option string)
        (axios : list Event -> HttpRequest -> PeeringDBError + value)
        (objectType : string) (config : PeeringDBObjectConfig)
        (op : BulkOperation) (A B C : gmap string value)
        (rA rB rC : BulkItemResult) (h0 hA hB hC : list Event) (fuel : nat) :
  bulk_item emailRegex_test url_ok objects apiKey axios objectType config op A h0
  = (inr rA, hA) ->
  success rA = true ->
  bulk_item emailRegex_test url_ok objects apiKey axios objectType config op B hA
  = (inr rB, hB) ->
  success rB = false ->
  bulk_item emailRegex_test url_ok objects apiKey axios objectType config op C
            (hB ++ [SetTimeout 1000])
  = (inr rC, hC) ->
  success rC = true ->
  (2 <= fuel)%nat ->
  bulk_handler emailRegex_test url_ok objects apiKey axios fuel objectType config
               {| operation := op; items := [A; B; C]; batch_size := 2 |} h0
  = (Some (BulkDone {| successful := 2; failed := 1; results := [rA; rB; rC] |}), hC)
  /\ item rA = A /\ item rB = B /\ item rC = C
  /\ exists evA evB evC,
      hC = h0 ++ evA ++ evB ++ [SetTimeout 1000] ++ evC
      /\ forallb is_http (evA ++ evB ++ evC) = true
      /\ length (List.filter (fun e => negb (is_http e)) (evA ++ evB ++ [SetTimeout 1000] ++ evC))
         = 1%nat.
Proof.
  intros HA HsA HB HsB HC HsC Hfuel.
  destruct (bulk_item_history emailRegex_test url_ok objects apiKey axios objectType
              config op A h0) as (rA' & evA & HA' & HiA & HeA).
  rewrite HA in HA'. injection HA' as <- ->.
  destruct (bulk_item_history emailRegex_test url_ok objects apiKey axios objectType
              config op B (h0 ++ evA)) as (rB' & evB & HB' & HiB & HeB).
  rewrite HB in HB'. injection HB' as <- ->.
  destruct (bulk_item_history emailRegex_test url_ok objects apiKey axios objectType
              config op C (((h0 ++ evA) ++ evB) ++ [SetTimeout 1000]))
    as (rC' & evC & HC' & HiC & HeC).
  rewrite HC in HC'. injection HC' as <- ->.
  split; [|split; [done|split; [done|split; [done|]]]].
  - destruct fuel as [|[|fuel]]; [lia|lia|].
    unfold bulk_handler. cbn [bulk_loop items batch_size operation length].
    change (0 <? Z.of_nat 3) with true. cbn iota.
    change (js_slice [A; B; C] 0 (0 + 2)) with [A; B].
    rewrite (bulk_batch_cons _ _ _ _ _ _ _ _ _ _ _ _ _ _ HA).
    rewrite (bulk_batch_cons _ _ _ _ _ _ _ _ _ _ _ _ _ _ HB).
    cbn [bulk_batch]. unfold ret at 1.
    change (0 + 2 <? Z.of_nat 3) with true. cbn iota.
    change (js_slice [A; B; C] (0 + 2) (0 + 2 + 2)) with [C].
    rewrite (bulk_batch_cons _ _ _ _ _ _ _ _ _ _ _ _ _ _ HC).
    cbn [bulk_batch]. unfold ret at 1.
    change (0 + 2 + 2 <? Z.of_nat 3) with false. cbn iota.
    destruct fuel; cbn [bulk_loop length items];
      change (0 + 2 + 2 <? Z.of_nat 3) with false; cbn iota;
      cbn [app List.filter]; rewrite HsA, HsB, HsC; reflexivity.
  - exists evA, evB, evC. split; [by rewrite <- !app_assoc|].
    split.
    + rewrite !forallb_app. by rewrite HeA, HeB, HeC.
    + assert (Hnone : forall evs, forallb is_http evs = true ->
                                  List.filter (fun e => negb (is_http e)) evs = []).
      { induction evs as [|e evs IH]; [done|]. cbn.
        intros [He Hevs]%andb_prop. rewrite He. cbn. by apply IH. }
      rewrite !List.filter_app, !(Hnone _ HeA), !(Hnone _ HeB), !(Hnone _ HeC).
      reflexivity.
Qed.

Lemma C4_bulk_run_of_three_items_in_two_batches_witness :
  bulk_item no_string no_string PEERINGDB_OBJECTS (Some "key") always_resolves
            "org" org_config bulk_create item_a [] = (inr record_a, history_a)
  /\ success record_a = true
  /\ bulk_item no_string no_string PEERINGDB_OBJECTS (Some "key") always_resolves
               "org" org_config bulk_create item_b history_a = (inr record_b, history_a)
  /\ success record_b = false
  /\ bulk_item no_string no_string PEERINGDB_OBJECTS (Some "key") always_resolves
               "org" org_config bulk_create item_c (history_a ++ [SetTimeout 1000])
     = (inr record_c, history_c)
  /\ success record_c = true
  /\ (2 <= 2)%nat
  /\ bulk_handler no_string no_string PEERINGDB_OBJECTS (Some "key") always_resolves
                  2 "org" org_config
                  {| operation := bulk_create; items := [item_a; item_b; item_c];
                     batch_size := 2 |} []
     = (Some (BulkDone {| successful := 2; failed := 1;
                          results := [record_a; record_b; record_c] |}), history_c).
Proof.
  assert (HA : bulk_item no_string no_string PEERINGDB_OBJECTS (Some "key")
                         always_resolves "org" org_config bulk_create item_a []
               = (inr record_a, history_a)) by (vm_compute; reflexivity).
  assert (HB : bulk_item no_string no_string PEERINGDB_OBJECTS (Some "key")
                         always_resolves "org" org_config bulk_create item_b history_a
               = (inr record_b, history_a)) by (vm_compute; reflexivity).
  assert (HC : bulk_item no_string no_string PEERINGDB_OBJECTS (Some "key")
                         always_resolves "org" org_config bulk_create item_c
                         (history_a ++ [SetTimeout 1000])
               = (inr record_c, history_c)) by (vm_compute; reflexivity).
  split; [exact HA|]. split; [reflexivity|]. split; [exact HB|].
  split; [reflexivity|]. split; [exact HC|]. split; [reflexivity|].
  split; [lia|].
  destruct (C4_bulk_run_of_three_items_in_two_batches
              no_string no_string PEERINGDB_OBJECTS (Some "key") always_resolves
              "org" org_config bulk_create item_a item_b item_c
              record_a record_b record_c [] history_a history_a history_c 2%nat
              HA eq_refl HB eq_refl HC eq_refl (le_n 2)) as [Hrun _].
  exact Hrun.
Defined.


(* ===================================================================== *)
(** * Further properties of the code *)
(* ===================================================================== *)

(** ** Field rules *)

(** X1. [createFieldSchema] returns an enumeration rule for exactly four
    field names, each with its own list of values and its description:
    [role], [visible], [status] and [policy_general], whatever
    [isRequired]. No other name gets an enumeration: the branches written
    for [info_type] and [info_scope] come after the test of the prefix
    [info_] and are never taken. *)
Theorem createFieldSchema_enum_fields (fieldName : string) (isRequired : bool)
        (values : list string) (d : option string) :
  (createFieldSchema fieldName isRequired = Zod.ZodEnum values d
   <-> (fieldName = "role"
        /\ values = ["Abuse"; "Administrative"; "Maintenance"; "NOC"; "Policy";
                     "Public Relations"; "Sales"; "Technical"]
        /\ d = Some "Contact role")
       \/ (fieldName = "visible"
           /\ values = ["Users"; "Public"; "Private"]
           /\ d = Some "Visibility level")
       \/ (fieldName = "status"
           /\ values = ["ok"; "pending"; "deleted"]
           /\ d = Some "Object status")
       \/ (fieldName = "policy_general"
           /\ values = ["Open"; "Selective"; "Restrictive"; "No"]
           /\ d = Some "General peering policy"))
  /\ createFieldSchema "info_type" isRequired <> Zod.ZodEnum values d
  /\ createFieldSchema "info_scope" isRequired <> Zod.ZodEnum values d.
Proof.
  split; [split|split; discriminate].
  - intros H. unfold createFieldSchema in H. cbv zeta in H.
    repeat match type of H with
           | context [if ?c then _ else _] => destruct c eqn:?
           end;
      cbn in H; try discriminate H;
      repeat match goal with
             | E : String.eqb fieldName _ = true |- _ =>
                 apply String.eqb_eq in E; subst fieldName
             end;
      try (exfalso; vm_compute in *; congruence);
      injection H as <- <-; auto 8.
  - intros [(-> & -> & ->)|[(-> & -> & ->)|[(-> & -> & ->)|(-> & -> & ->)]]];
      reflexivity.
Qed.

(** ** Object schemas *)

Lemma addRequiredFields_Forall (P : string * Zod.ZodType -> Prop) config l :
  (forall f, f ∈ requiredFields config -> P (f, createFieldSchema f true)) ->
  Forall P l -> Forall P (addRequiredFields config l).
Proof.
  unfold addRequiredFields. generalize (requiredFields config) as fields.
  intros fields. revert l. induction fields as [|f fields IH]; intros l HP Hl; [done|].
  cbn [fold_left]. apply IH.
  - intros g Hg. apply HP. by right.
  - apply set_field_Forall; [|done]. apply HP. by left.
Qed.

Lemma addOptionalFields_Forall (P : string * Zod.ZodType -> Prop) config op l :
  (forall f b, f ∈ optionalFields config ->
               P (f, Zod.optional (createFieldSchema f b))) ->
  Forall P l -> Forall P (addOptionalFields config op l).
Proof.
  unfold addOptionalFields. generalize (optionalFields config) as fields.
  intros fields. revert l. induction fields as [|f fields IH]; intros l HP Hl; [done|].
  cbn [fold_left]. apply IH.
  - intros g b Hg. apply HP. by right.
  - apply set_field_Forall; [|done]. apply HP. by left.
Qed.

Lemma makeOptionalExceptId_Forall (P : string * Zod.ZodType -> Prop) l :
  (forall k s, P (k, s) -> P (k, Zod.optional s)) ->
  Forall P l -> Forall P (makeOptionalExceptId l).
Proof.
  intros HP. unfold makeOptionalExceptId. generalize (l.*1) as keys.
  intros keys. revert l. induction keys as [|key keys IH]; intros l Hl; [done|].
  cbn [fold_left]. apply IH.
  destruct (get_field key l) as [s|] eqn:Hs; [|done].
  destruct (negb _); [|done].
  apply set_field_Forall; [|done]. apply HP.
  rewrite Forall_forall in Hl. by apply Hl, get_field_elem_of.
Qed.

Lemma objectSchemaFields_Forall (P : string * Zod.ZodType -> Prop) config op :
  P ("id", Zod.describe (name config +:+ " ID") (Zod.union_ [Zod.string_; Zod.number_])) ->
  (forall f, f ∈ requiredFields config -> P (f, createFieldSchema f true)) ->
  (forall f b, f ∈ optionalFields config ->
               P (f, Zod.optional (createFieldSchema f b))) ->
  (forall k s, P (k, s) -> P (k, Zod.optional s)) ->
  Forall P (objectSchemaFields config op).
Proof.
  intros Hid Hreq Hopt Hwrap. unfold objectSchemaFields. cbv zeta.
  assert (H1 : Forall P (if bool_decide (op = update) || bool_decide (op = patch)
                         then addIdField config [] else [])).
  { destruct (_ || _); [|done]. by repeat constructor. }
  assert (H2 : Forall P (if bool_decide (op = create) || bool_decide (op = update)
                         then addRequiredFields config
                                (if bool_decide (op = update) || bool_decide (op = patch)
                                 then addIdField config [] else [])
                         else if bool_decide (op = update) || bool_decide (op = patch)
                              then addIdField config [] else [])).
  { destruct (bool_decide (op = create) || bool_decide (op = update)); [|done].
    by apply addRequiredFields_Forall. }
  destruct (bool_decide (op = patch)).
  - apply makeOptionalExceptId_Forall; [done|]. by apply addOptionalFields_Forall.
  - by apply addOptionalFields_Forall.
Qed.

(** A schema names nothing but [id] and the fields of the two lists of
    the descriptor. *)
Lemma objectSchemaFields_keys config op k :
  k ∈ (objectSchemaFields config op).*1 ->
  k = "id" \/ k ∈ requiredFields config \/ k ∈ optionalFields config.
Proof.
  intros Hk.
  assert (Hall : Forall (fun kv => fst kv = "id" \/ fst kv ∈ requiredFields config
                                   \/ fst kv ∈ optionalFields config)
                        (objectSchemaFields config op)).
  { apply objectSchemaFields_Forall; cbn; auto. }
  apply list_elem_of_fmap in Hk as ([k' s] & -> & Hin).
  rewrite Forall_forall in Hall. exact (Hall _ Hin).
Qed.

(** X3. With the registry of the repository, a relationship field ([net_set],
    [poc_set], ...) is in the schema of no operation: validation never
    reads it and a validated payload never holds it. *)
Theorem relationships_in_no_write_schema
        (objectType : string) (config : PeeringDBObjectConfig)
        (op : Operation) (field : string) :
  PEERINGDB_OBJECTS !! objectType = Some config ->
  includes_str field (relationships config) = true ->
  get_field field (objectSchemaFields config op) = None.
Proof.
  intros Hin%PEERINGDB_OBJECTS_lookup Hrel%bool_decide_eq_true.
  destruct (get_field field (objectSchemaFields config op)) as [s|] eqn:Hs; [|done].
  exfalso.
  assert (Hk : field ∈ (objectSchemaFields config op).*1)
    by (apply get_field_is_Some; by rewrite Hs).
  apply objectSchemaFields_keys in Hk.
  assert (Hall : Forall (fun kv =>
                           forallb (fun r =>
                                      negb (String.eqb r "id")
                                      && negb (includes_str r (requiredFields (snd kv)))
                                      && negb (includes_str r (optionalFields (snd kv))))
                                   (relationships (snd kv)) = true)
                        PEERINGDB_OBJECTS_entries) by (repeat constructor).
  rewrite Forall_forall in Hall. specialize (Hall _ Hin). cbn in Hall.
  rewrite forallb_forall in Hall. specialize (Hall field).
  rewrite <- list_elem_of_In in Hall. specialize (Hall Hrel).
  apply andb_prop in Hall as [[H1 H2]%andb_prop H3].
  apply negb_true_iff in H1, H2, H3.
  apply String.eqb_neq in H1.
  unfold includes_str in H2, H3.
  apply bool_decide_eq_false in H2, H3. naive_solver.
Qed.

Lemma relationships_in_no_write_schema_witness :
  PEERINGDB_OBJECTS !! "net" = Some net_config
  /\ includes_str "poc_set" (relationships net_config) = true
  /\ get_field "poc_set" (objectSchemaFields net_config update) = None.
Proof.
  split; [reflexivity|]. split; [reflexivity|].
  apply (relationships_in_no_write_schema "net" net_config update "poc_set").
  - reflexivity.
  - reflexivity.
Defined.

Lemma addOptionalFields_optional config op l f :
  f ∈ optionalFields config
  \/ (exists s, get_field f l = Some s /\ is_optional s = true) ->
  exists s, get_field f (addOptionalFields config op l) = Some s /\ is_optional s = true.
Proof.
  intros Hf. unfold addOptionalFields. revert l Hf.
  generalize (optionalFields config) as fields.
  induction fields as [|g fields IH]; intros l Hf.
  - destruct Hf as [Hf|Hf]; [by apply elem_of_nil in Hf|done].
  - cbn [fold_left]. apply IH.
    destruct (decide (f = g)) as [->|Hne].
    + right. rewrite get_field_set_field, String.eqb_refl. by eexists.
    + destruct Hf as [Hf|Hf].
      * apply elem_of_cons in Hf as [?|Hf]; [done|by left].
      * right. rewrite get_field_set_field.
        destruct (String.eqb g f) eqn:E; [|done].
        apply String.eqb_eq in E. by subst.
Qed.

Lemma makeOptionalExceptId_optional l f :
  (exists s, get_field f l = Some s /\ is_optional s = true) ->
  exists s, get_field f (makeOptionalExceptId l) = Some s /\ is_optional s = true.
Proof.
  unfold makeOptionalExceptId. generalize (l.*1) as keys. intros keys. revert l.
  induction keys as [|key keys IH]; intros l Hf; [done|].
  cbn [fold_left]. apply IH.
  destruct (get_field key l) as [s|] eqn:Hs; [|done].
  destruct (negb _); [|done].
  rewrite get_field_set_field. destruct (String.eqb key f); [by eexists|done].
Qed.

(** X2. The optional list wins: in the schema of every operation a field
    of [optionalFields] is optional, also when [requiredFields] lists it
    too (the later assignment replaces the required entry). The name
    [__proto__], to which an assignment stores nothing, is left out. *)
Theorem optional_list_overrides_required
        (config : PeeringDBObjectConfig) (op : Operation) (field : string) :
  includes_str field (optionalFields config) = true ->
  String.eqb field "__proto__" = false ->
  exists s, get_field field (objectSchemaFields config op) = Some s
            /\ is_optional s = true.
Proof.
  intros Hf%bool_decide_eq_true _. unfold objectSchemaFields. cbv zeta.
  destruct (bool_decide (op = patch)).
  - apply makeOptionalExceptId_optional, addOptionalFields_optional. by left.
  - apply addOptionalFields_optional. by left.
Qed.

Lemma optional_list_overrides_required_witness :
  includes_str "name" (requiredFields overlapping_config) = true
  /\ includes_str "name" (optionalFields overlapping_config) = true
  /\ String.eqb "name" "__proto__" = false
  /\ exists s, get_field "name" (objectSchemaFields overlapping_config create) = Some s
               /\ is_optional s = true.
Proof.
  split; [reflexivity|]. split; [reflexivity|]. split; [reflexivity|].
  apply (optional_list_overrides_required overlapping_config create "name");
    reflexivity.
Defined.

(** ** Field schemas under [parse] *)

Lemma createFieldSchema_field_schema (fieldName : string) (isRequired : bool) :
  field_schema (createFieldSchema fieldName isRequired)
  /\ is_optional (createFieldSchema fieldName isRequired) = false.
Proof.
  unfold createFieldSchema. cbv zeta.
  repeat match goal with
         | |- context [if ?c then _ else _] => destruct c
         end; cbn; split; try reflexivity; first [apply fs_id | constructor].
Qed.

Section FieldParsing.
Variable emailRegex_test : string -> bool.
Variable url_ok : string -> bool.

(** A rule that is not optional rejects [undefined], with one issue at the
    path of the field. *)
Lemma field_schema_undefined s p :
  field_schema s -> is_optional s = false ->
  exists c, Zod._parse emailRegex_test url_ok s p None
            = Zod.INVALID [{| Zod.code := c; Zod.path := p |}].
Proof.
  intros Hs Hopt. destruct Hs; try discriminate Hopt; cbn; by eexists.
Qed.

(** A rule that lets a datum through returns the datum. *)
Lemma field_schema_value s p data :
  field_schema s ->
  Zod.status (Zod._parse emailRegex_test url_ok s p data) <> Zod.aborted ->
  Zod.out (Zod._parse emailRegex_test url_ok s p data) = data.
Proof.
  intros Hs. induction Hs as [d|checks d|checks d|d|values d|inner d Hinner IH]; intros Hst.
  - destruct data as [[]|]; cbn in Hst |- *; done.
  - destruct data as [[]|]; cbn in Hst |- *; done.
  - destruct data as [[]|]; cbn in Hst |- *; done.
  - destruct data as [[]|]; cbn in Hst |- *; done.
  - destruct data as [[| | |s| |]|]; cbn in Hst |- *; try done.
    destruct (includes_str s values); cbn in Hst |- *; done.
  - destruct data as [v|]; [|done]. cbn in Hst |- *. by apply IH.
Qed.

Lemma parse_object_missing shape k s props iss :
  (k, s) ∈ shape ->
  Zod._parse emailRegex_test url_ok s [k] (props !! k) = Zod.INVALID [iss] ->
  exists issues,
    Zod.parse emailRegex_test url_ok (Zod.ZodObject shape) (VObject props) = inl issues
    /\ iss ∈ issues.
Proof.
  intros Hin Hval. unfold Zod.parse. rewrite parse_object_unfold.
  cbn zeta. cbn [Zod.status Zod.out].
  set (pairs := List.map (Zod.object_pair (Zod._parse emailRegex_test url_ok) [] props) shape).
  set (pr := Zod.object_pair (Zod._parse emailRegex_test url_ok) [] props (k, s)).
  assert (Hpr : pr ∈ pairs).
  { apply list_elem_of_In, in_map. by apply list_elem_of_In. }
  assert (Hval' : Zod.pair_value pr = Zod.INVALID [iss]) by exact Hval.
  rewrite (mergeObject_aborted Zod.valid ∅ pairs).
  - cbn. eexists. split; [done|].
    apply list_elem_of_In, in_concat. eexists. split.
    + apply in_map_iff. exists pr. split; [done|]. by apply list_elem_of_In.
    + rewrite Hval'. by left.
  - exists pr. split; [done|]. by rewrite Hval'.
Qed.

(** What [mergeObject] stores for a shape of field rules: the properties
    of the payload that the shape names. *)
Lemma mergeObject_field_shape shape p props st finalObject st' m :
  Forall (fun kv => field_schema (snd kv)) shape ->
  Zod.mergeObject st finalObject
    (List.map (Zod.object_pair (Zod._parse emailRegex_test url_ok) p props) shape)
  = (st', Some (VObject m)) ->
  forall k,
    m !! k = match (if bool_decide (k ∈ shape.*1 /\ k <> "__proto__")
                    then props !! k else None) with
             | Some v => Some v
             | None => finalObject !! k
             end.
Proof.
  intros Hshape. revert st finalObject.
  induction Hshape as [|[k0 s0] shape Hs0 Hshape IH]; intros st fo Hm k.
  - cbn in Hm. injection Hm as _ <-.
    rewrite bool_decide_eq_false_2; [done|]. intros [H _]. by apply elem_of_nil in H.
  - cbn [List.map Zod.mergeObject] in Hm.
    set (r := Zod.pair_value _) in Hm.
    assert (Hout : Zod.status r <> Zod.aborted -> Zod.out r = props !! k0).
    { intros Hst. by apply (field_schema_value s0 (p ++ [k0]) (props !! k0)). }
    cbn [Zod.object_pair Zod.pair_key fst] in Hm.
    assert (Hstep : Zod.status r <> Zod.aborted ->
              exists st1,
                Zod.mergeObject st1
                  (if negb (String.eqb k0 "__proto__")
                   then match props !! k0 with
                        | Some v => <[k0 := v]> fo
                        | None => fo
                        end
                   else fo)
                  (List.map (Zod.object_pair (Zod._parse emailRegex_test url_ok) p props)
                            shape)
                = (st', Some (VObject m))).
    { intros Hst. specialize (Hout Hst). rewrite Hout in Hm.
      destruct (Zod.status r); [by eexists|by eexists|done]. }
    destruct (Zod.status r) eqn:Hr; [| |done].
    all: destruct Hstep as [st1 Hstep]; [done|].
    all: rewrite (IH _ _ Hstep k); clear IH Hstep Hm.
    all: cbn [fmap list_fmap fst].
    all: destruct (decide (k = k0)) as [->|Hne].
    all: try (destruct (String.eqb k0 "__proto__") eqn:Eproto; cbn [negb];
              [apply String.eqb_eq in Eproto; subst k0;
               rewrite !bool_decide_eq_false_2 by (intros [_ H]; by apply H); done
              |apply String.eqb_neq in Eproto]).
    all: try (rewrite (bool_decide_eq_true_2 (k0 ∈ k0 :: shape.*1 /\ k0 <> "__proto__"))
               by (split; [by left|done]);
              destruct (bool_decide (k0 ∈ shape.*1 /\ k0 <> "__proto__"));
              destruct (props !! k0) eqn:Hp; rewrite ?lookup_insert_eq; done).
    all: assert (Hiff : bool_decide (k ∈ k0 :: shape.*1 /\ k <> "__proto__")
                        = bool_decide (k ∈ shape.*1 /\ k <> "__proto__"))
      by (apply bool_decide_ext; rewrite elem_of_cons; naive_solver).
    all: rewrite Hiff.
    all: destruct (bool_decide (k ∈ shape.*1 /\ k <> "__proto__"));
      destruct (props !! k); try done.
    all: destruct (negb _); try done; destruct (props !! k0); try done;
      by rewrite lookup_insert_ne.
Qed.
End FieldParsing.

(** ** Validation of payloads, continued *)

Lemma objectSchemaFields_field_schemas config op :
  Forall (fun kv => field_schema (snd kv)) (objectSchemaFields config op).
Proof.
  apply objectSchemaFields_Forall; cbn.
  - apply fs_id.
  - intros f _. apply createFieldSchema_field_schema.
  - intros f b _. constructor. apply createFieldSchema_field_schema.
  - intros k s Hs. by constructor.
Qed.

Lemma addRequiredFields_get config l f :
  f ∈ requiredFields config ->
  get_field f (addRequiredFields config l) = Some (createFieldSchema f true).
Proof.
  intros Hf. unfold addRequiredFields.
  assert (Hgen : forall fields l0,
             f ∈ fields \/ get_field f l0 = Some (createFieldSchema f true) ->
             get_field f (fold_left (fun acc field =>
                                       set_field field (createFieldSchema field true) acc)
                                    fields l0)
             = Some (createFieldSchema f true)).
  { induction fields as [|g fields IH]; intros l0 H0.
    - destruct H0 as [H0|H0]; [by apply elem_of_nil in H0|done].
    - cbn [fold_left]. apply IH. rewrite get_field_set_field.
      destruct (String.eqb g f) eqn:E.
      + apply String.eqb_eq in E as ->. by right.
      + apply String.eqb_neq in E. destruct H0 as [H0|H0]; [|by right].
        apply elem_of_cons in H0 as [?|H0]; [by subst|by left]. }
  apply Hgen. by left.
Qed.

Lemma addOptionalFields_get_other config op l f :
  f ∉ optionalFields config ->
  get_field f (addOptionalFields config op l) = get_field f l.
Proof.
  unfold addOptionalFields. generalize (optionalFields config) as fields.
  intros fields. revert l. induction fields as [|g fields IH]; intros l Hf; [done|].
  cbn [fold_left]. rewrite IH by (intros H; apply Hf; by right).
  rewrite get_field_set_field. destruct (String.eqb g f) eqn:E; [|done].
  apply String.eqb_eq in E as ->. exfalso. apply Hf. by left.
Qed.

(** In the schemas of create and update a field that is required and not
    optional keeps the rule of [createFieldSchema], which is not optional. *)
Lemma required_field_schema config op f :
  op = create \/ op = update ->
  f ∈ requiredFields config -> f ∉ optionalFields config ->
  get_field f (objectSchemaFields config op) = Some (createFieldSchema f true).
Proof.
  intros Hop Hreq Hopt. unfold objectSchemaFields. cbv zeta.
  destruct Hop as [-> | ->].
  - change (bool_decide (create = update)) with false.
    change (bool_decide (create = patch)) with false.
    cbn [orb]. rewrite orb_false_r.
    assert (Hc : forall (X Y : list (string * Zod.ZodType)),
               (if bool_decide (create = create) then X else Y) = X) by done.
    rewrite Hc. rewrite addOptionalFields_get_other by done.
    by apply addRequiredFields_get.
  - change (bool_decide (update = update)) with true.
    change (bool_decide (update = patch)) with false.
    rewrite orb_true_r. cbn [orb].
    rewrite addOptionalFields_get_other by done.
    by apply addRequiredFields_get.
Qed.

(** In the registry of the repository no field is both required and
    optional, and no field is named [__proto__]. *)
Lemma PEERINGDB_OBJECTS_fields (objectType : string) (config : PeeringDBObjectConfig) :
  PEERINGDB_OBJECTS !! objectType = Some config ->
  (forall f, f ∈ requiredFields config -> ~ f ∈ optionalFields config)
  /\ ~ "__proto__" ∈ requiredFields config
  /\ ~ "__proto__" ∈ optionalFields config.
Proof.
  intros Hin%PEERINGDB_OBJECTS_lookup.
  assert (Hall : Forall (fun kv =>
                           forallb (fun f => negb (includes_str f (optionalFields (snd kv))))
                                   (requiredFields (snd kv))
                           && negb (includes_str "__proto__" (requiredFields (snd kv)))
                           && negb (includes_str "__proto__" (optionalFields (snd kv)))
                           = true)
                        PEERINGDB_OBJECTS_entries) by (repeat constructor).
  rewrite Forall_forall in Hall. specialize (Hall _ Hin). cbn [snd] in Hall.
  apply andb_prop in Hall as [[H1 H2]%andb_prop H3].
  apply negb_true_iff, bool_decide_eq_false in H2, H3.
  split; [|done].
  intros f Hf. rewrite forallb_forall in H1. specialize (H1 f).
  rewrite <- list_elem_of_In in H1. specialize (H1 Hf).
  by apply negb_true_iff, bool_decide_eq_false in H1.
Qed.

(** X4. For every registered type and every required field [f] of it, a
    payload without [f] fails the validation for create and for update,
    with an issue at [f]. *)
Theorem missing_required_field_is_rejected
        (emailRegex_test url_ok : string -> bool)
        (objectType : string) (config : PeeringDBObjectConfig)
        (op : Operation) (field : string) (data : gmap string value) :
  PEERINGDB_OBJECTS !! objectType = Some config ->
  (bool_decide (op = create) || bool_decide (op = update)) = true ->
  includes_str field (requiredFields config) = true ->
  data !! field = None ->
  exists issues c,
    validateObjectData emailRegex_test url_ok PEERINGDB_OBJECTS objectType data op
    = inl (ValidationFailed objectType issues)
    /\ {| Zod.code := c; Zod.path := [field] |} ∈ issues.
Proof.
  intros Hcfg Hop Hreq%bool_decide_eq_true Hdata.
  assert (Hop' : op = create \/ op = update).
  { apply orb_prop in Hop as [H%bool_decide_eq_true|H%bool_decide_eq_true]; auto. }
  destruct (PEERINGDB_OBJECTS_fields _ _ Hcfg) as (Hdisj & _ & _).
  pose proof (required_field_schema config op field Hop' Hreq (Hdisj _ Hreq)) as Hget.
  destruct (createFieldSchema_field_schema field true) as [Hfs Hnopt].
  destruct (field_schema_undefined emailRegex_test url_ok _ [field] Hfs Hnopt) as [c Hc].
  destruct (parse_object_missing emailRegex_test url_ok
              (objectSchemaFields config op) field (createFieldSchema field true) data
              {| Zod.code := c; Zod.path := [field] |})
    as (issues & Hparse & Hin).
  - by apply get_field_elem_of.
  - by rewrite Hdata.
  - exists issues, c. split; [|done].
    rewrite (validateObjectData_unfold _ _ _ _ config) by done. by rewrite Hparse.
Qed.

Lemma missing_required_field_is_rejected_witness :
  PEERINGDB_OBJECTS !! "net" = Some net_config
  /\ (bool_decide (create = create) || bool_decide (create = update)) = true
  /\ includes_str "asn" (requiredFields net_config) = true
  /\ ({["name" := VString "n"]} : gmap string value) !! "asn" = None
  /\ exists issues c,
      validateObjectData no_string no_string PEERINGDB_OBJECTS "net"
                         {["name" := VString "n"]} create
      = inl (ValidationFailed "net" issues)
      /\ {| Zod.code := c; Zod.path := ["asn"] |} ∈ issues.
Proof.
  split; [reflexivity|]. split; [reflexivity|]. split; [reflexivity|].
  split; [reflexivity|].
  apply (missing_required_field_is_rejected no_string no_string "net" net_config create
                                            "asn" {["name" := VString "n"]});
    reflexivity.
Defined.

(** X5. For every registered type, a payload that passes validation comes back
    as the payload restricted to the fields of the schema: no value is
    changed or coerced, and nothing but the unnamed fields is removed. *)
Theorem validated_payload_is_restriction
        (emailRegex_test url_ok : string -> bool)
        (objectType : string) (config : PeeringDBObjectConfig)
        (op : Operation) (data : gmap string value) (v : value) :
  PEERINGDB_OBJECTS !! objectType = Some config ->
  validateObjectData emailRegex_test url_ok PEERINGDB_OBJECTS objectType data op = inr v ->
  v = VObject (filter (fun kv => fst kv ∈ (objectSchemaFields config op).*1) data).
Proof.
  intros Hcfg Hv. rewrite (validateObjectData_unfold _ _ _ _ config) in Hv by done.
  destruct (Zod.parse _ _ _ _) as [iss|w] eqn:Hp; [done|]. injection Hv as ->.
  unfold Zod.parse in Hp. rewrite parse_object_unfold in Hp.
  cbn zeta in Hp. cbn [Zod.status Zod.out] in Hp.
  destruct (Zod.mergeObject _ _ _) as [st [w|]] eqn:Hm; cbn [fst snd] in Hp;
    [|by destruct st].
  destruct st; [|done|done]. injection Hp as <-.
  destruct (mergeObject_out _ _ _ _ _ Hm) as [m ->]. f_equal.
  apply map_eq. intros k.
  rewrite (mergeObject_field_shape emailRegex_test url_ok _ _ _ _ _ _ _
             (objectSchemaFields_field_schemas config op) Hm k).
  rewrite lookup_empty.
  destruct (PEERINGDB_OBJECTS_fields _ _ Hcfg) as (_ & Hp1 & Hp2).
  destruct (decide (k ∈ (objectSchemaFields config op).*1)) as [Hk|Hk].
  - assert (k <> "__proto__").
    { intros ->. apply objectSchemaFields_keys in Hk. naive_solver. }
    rewrite bool_decide_eq_true_2 by done.
    destruct (data !! k) as [x|] eqn:Hx; symmetry.
    + by apply map_lookup_filter_Some_2.
    + apply map_lookup_filter_None_2. by left.
  - rewrite bool_decide_eq_false_2 by naive_solver.
    symmetry. apply map_lookup_filter_None_2. right. intros x _. exact Hk.
Qed.

Lemma validated_payload_is_restriction_witness :
  PEERINGDB_OBJECTS !! "org" = Some org_config
  /\ validateObjectData no_string no_string PEERINGDB_OBJECTS "org"
       (<["name" := VString "X"]> {["bogus" := VString "y"]}) create
     = inr (VObject {["name" := VString "X"]})
  /\ VObject {["name" := VString "X"]}
     = VObject (filter (fun kv => fst kv ∈ (objectSchemaFields org_config create).*1)
                       (<["name" := VString "X"]> {["bogus" := VString "y"]})).
Proof.
  assert (Hv : validateObjectData no_string no_string PEERINGDB_OBJECTS "org"
                 (<["name" := VString "X"]> {["bogus" := VString "y"]}) create
               = inr (VObject {["name" := VString "X"]})) by (vm_compute; reflexivity).
  split; [reflexivity|]. split; [exact Hv|].
  apply (validated_payload_is_restriction no_string no_string "org" org_config create
           (<["name" := VString "X"]> {["bogus" := VString "y"]})).
  - reflexivity.
  - exact Hv.
Defined.

(** ** Bulk runs, in general *)

Lemma timers_app (evs1 evs2 : list Event) :
  timers (evs1 ++ evs2) = (timers evs1 + timers evs2)%nat.
Proof. unfold timers. by rewrite List.filter_app, length_app. Qed.

Lemma timers_http (evs : list Event) :
  forallb is_http evs = true -> timers evs = 0%nat.
Proof.
  unfold timers. induction evs as [|e evs IH]; [done|]. cbn.
  intros [He Hevs]%andb_prop. rewrite He. cbn. by apply IH.
Qed.

Lemma filter_partition_length {A} (f : A -> bool) (l : list A) :
  (length (List.filter f l) + length (List.filter (fun x => negb (f x)) l))%nat
  = length l.
Proof.
  induction l as [|x l IH]; [done|]. cbn. destruct (f x); cbn; lia.
Qed.

Lemma to_nat_div_small (x bs : Z) :
  0 < bs -> x < bs -> Z.to_nat (x / bs) = 0%nat.
Proof.
  intros Hbs Hx. assert (x / bs < 1) by (apply Z.div_lt_upper_bound; lia). lia.
Qed.

Section BulkInGeneral.
Variable emailRegex_test : string -> bool.
Variable url_ok : string -> bool.
Variable objects : gmap string PeeringDBObjectConfig.
Variable apiKey : option string.
Variable axios : list Event -> HttpRequest -> PeeringDBError + value.
Variable objectType : string.
Variable config : PeeringDBObjectConfig.
Variable args : BulkArgs.

Local Notation "'run_batch'" :=
  (bulk_batch emailRegex_test url_ok objects apiKey axios objectType config
              (operation args)).
Local Notation "'run_loop'" :=
  (bulk_loop emailRegex_test url_ok objects apiKey axios).

Lemma bulk_batch_history batch results h :
  exists rs evs,
    run_batch batch results h = (inr (results ++ rs), h ++ evs)
    /\ List.map item rs = batch /\ forallb is_http evs = true.
Proof.
  revert results h. induction batch as [|it batch IH]; intros results h.
  - exists [], []. cbn. unfold ret. by rewrite !app_nil_r.
  - destruct (bulk_item_history emailRegex_test url_ok objects apiKey axios objectType
                config (operation args) it h) as (r & evs & Hr & Hi & He).
    destruct (IH (results ++ [r]) (h ++ evs)) as (rs & evs' & Hrs & Hmap & He').
    exists (r :: rs), (evs ++ evs'). split; [|split].
    + rewrite (bulk_batch_cons _ _ _ _ _ _ _ _ _ _ _ _ _ _ Hr), Hrs.
      by rewrite <- !app_assoc.
    + cbn. by rewrite Hi, Hmap.
    + by rewrite forallb_app, He, He'.
Qed.

(** With a positive batch size the loop ends: it records the remaining
    items in their order and sets a timer after every batch but the last. *)
Lemma bulk_loop_total fuel i results h :
  0 < batch_size args -> 0 <= i ->
  Z.of_nat (length (items args)) - i <= Z.of_nat fuel ->
  exists rs evs,
    run_loop fuel objectType config args i results h
    = (Some (inr (results ++ rs)), h ++ evs)
    /\ List.map item rs = drop (Z.to_nat i) (items args)
    /\ timers evs
       = Z.to_nat ((Z.of_nat (length (items args)) - i - 1) / batch_size args).
Proof.
  intros Hbs. revert i results h.
  induction fuel as [|fuel IH]; intros i results h Hi Hfuel.
  - cbn [bulk_loop]. rewrite (proj2 (Z.ltb_ge _ _)) by lia.
    exists [], []. rewrite !app_nil_r. split; [done|]. split.
    + by rewrite drop_ge by lia.
    + cbn. symmetry. apply to_nat_div_small; lia.
  - cbn [bulk_loop].
    destruct (Z.ltb_spec i (Z.of_nat (length (items args)))) as [Hlt|Hge].
    + destruct (bulk_batch_history (js_slice (items args) i (i + batch_size args))
                                   results h) as (rs & evs & -> & Hmap & He).
      destruct (Z.ltb_spec (i + batch_size args) (Z.of_nat (length (items args))))
        as [Hmore|Hlast].
      * destruct (IH (i + batch_size args) (results ++ rs)
                     ((h ++ evs) ++ [SetTimeout 1000]))
          as (rs' & evs' & -> & Hmap' & Ht'); [lia|lia|].
        exists (rs ++ rs'), (evs ++ [SetTimeout 1000] ++ evs').
        split; [by rewrite <- !app_assoc|]. split.
        -- rewrite List.map_app, Hmap, Hmap'. by apply js_slice_batch.
        -- rewrite !timers_app, (timers_http _ He), Ht'. cbn.
           replace (Z.of_nat (length (items args)) - i - 1)
             with ((Z.of_nat (length (items args)) - (i + batch_size args) - 1)
                   + 1 * batch_size args) by lia.
           rewrite Z.div_add by lia.
           rewrite Z2Nat.inj_add; [cbn; lia| |lia].
           apply Z.div_pos; lia.
      * destruct (IH (i + batch_size args) (results ++ rs) (h ++ evs))
          as (rs' & evs' & -> & Hmap' & Ht'); [lia|lia|].
        exists (rs ++ rs'), (evs ++ evs').
        split; [by rewrite <- !app_assoc|]. split.
        -- rewrite List.map_app, Hmap, Hmap'. by apply js_slice_batch.
        -- rewrite timers_app, (timers_http _ He), Ht'.
           rewrite !to_nat_div_small by lia. done.
    + exists [], []. rewrite !app_nil_r. split; [done|]. split.
      * by rewrite drop_ge by lia.
      * cbn. symmetry. apply to_nat_div_small; lia.
Qed.

(** With a batch size that is not positive and at least one item, the
    loop never ends, whatever the fuel. *)
Lemma bulk_loop_stuck fuel i results h :
  batch_size args <= 0 -> items args <> [] -> i <= 0 ->
  fst (run_loop fuel objectType config args i results h) = None.
Proof.
  intros Hbs Hitems. revert i results h.
  induction fuel as [|fuel IH]; intros i results h Hi.
  - cbn [bulk_loop]. destruct (Z.ltb_spec i (Z.of_nat (length (items args)))); [done|].
    destruct (items args); [done|]. cbn in *. lia.
  - cbn [bulk_loop]. destruct (Z.ltb_spec i (Z.of_nat (length (items args)))).
    + destruct (bulk_batch_history (js_slice (items args) i (i + batch_size args))
                                   results h) as (rs & evs & -> & _ & _).
      apply IH. lia.
    + destruct (items args); [done|]. cbn in *. lia.
Qed.
End BulkInGeneral.

(** X6. For every operation, a bulk run whose batch size is a positive
    integer, with fuel for every item, ends with one record per item, in
    the order of the input; the two counts add up to the number of items;
    and the number of timers is the number of batches less one, which is
    the integer quotient of the number of items less one by the batch
    size. (The batch sizes of this development are integers; a size with a
    fractional part is not covered.) *)
Theorem bulk_handler_records_every_item_in_order
        (emailRegex_test url_ok : string -> bool)
        (objects : gmap string PeeringDBObjectConfig)
        (apiKey : option string)
        (axios : list Event -> HttpRequest -> PeeringDBError + value)
        (objectType : string) (config : PeeringDBObjectConfig)
        (args : BulkArgs) (fuel : nat) (h : list Event) :
  0 < batch_size args ->
  (length (items args) <= fuel)%nat ->
  exists summary evs,
    bulk_handler emailRegex_test url_ok objects apiKey axios fuel objectType config args h
    = (Some (BulkDone summary), h ++ evs)
    /\ List.map item (results summary) = items args
    /\ (successful summary + failed summary)%nat = length (items args)
    /\ timers evs = Z.to_nat ((Z.of_nat (length (items args)) - 1) / batch_size args).
Proof.
  intros Hbs Hfuel.
  destruct (bulk_loop_total emailRegex_test url_ok objects apiKey axios objectType config
              args fuel 0 [] h) as (rs & evs & Hloop & Hmap & Ht); [done|done|lia|].
  change (drop (Z.to_nat 0) (items args)) with (items args) in Hmap.
  unfold bulk_handler. rewrite Hloop. cbn [app].
  eexists. exists evs. split; [done|]. cbn [results successful failed].
  split; [exact Hmap|]. split.
  - rewrite filter_partition_length. rewrite <- Hmap. cbn. by rewrite length_map.
  - rewrite Ht. do 2 f_equal. lia.
Qed.

Lemma bulk_handler_records_every_item_in_order_witness :
  0 < 2
  /\ (length [item_a; item_b; item_c] <= 3)%nat
  /\ exists summary evs,
      bulk_handler no_string no_string PEERINGDB_OBJECTS (Some "key") always_resolves
                   3 "org" org_config
                   {| operation := bulk_delete; items := [item_a; item_b; item_c];
                      batch_size := 2 |} []
      = (Some (BulkDone summary), [] ++ evs)
      /\ List.map item (results summary) = [item_a; item_b; item_c]
      /\ (successful summary + failed summary)%nat = 3%nat
      /\ timers evs = Z.to_nat ((3 - 1) / 2).
Proof.
  split; [lia|]. split; [cbn; lia|].
  apply (bulk_handler_records_every_item_in_order
           no_string no_string PEERINGDB_OBJECTS (Some "key") always_resolves
           "org" org_config
           {| operation := bulk_delete; items := [item_a; item_b; item_c];
              batch_size := 2 |} 3 []).
  - cbn. lia.
  - cbn. lia.
Defined.

(** X7. A bulk run with a batch size of zero or less over at least one item
    never returns: the index never passes the first item, whatever the
    operation and however many rounds are allowed. *)
Theorem bulk_handler_never_ends_on_nonpositive_batch_size
        (emailRegex_test url_ok : string -> bool)
        (objects : gmap string PeeringDBObjectConfig)
        (apiKey : option string)
        (axios : list Event -> HttpRequest -> PeeringDBError + value)
        (objectType : string) (config : PeeringDBObjectConfig)
        (args : BulkArgs) (fuel : nat) (h : list Event) :
  batch_size args <= 0 ->
  items args <> [] ->
  fst (bulk_handler emailRegex_test url_ok objects apiKey axios fuel objectType config
                    args h) = None.
Proof.
  intros Hbs Hitems.
  pose proof (bulk_loop_stuck emailRegex_test url_ok objects apiKey axios objectType
                config args fuel 0 [] h Hbs Hitems (Z.le_refl 0)) as Hstuck.
  unfold bulk_handler.
  destruct (bulk_loop _ _ _ _ _ _ _ _ _ _ _ _) as [[[e|rs]|] h']; cbn in *; done.
Qed.

Lemma bulk_handler_never_ends_on_nonpositive_batch_size_witness :
  0 <= 0
  /\ [item_a] <> []
  /\ fst (bulk_handler no_string no_string PEERINGDB_OBJECTS (Some "key") always_resolves
                       5 "org" org_config
                       {| operation := bulk_create; items := [item_a];
                          batch_size := 0 |} []) = None.
Proof.
  split; [lia|]. split; [discriminate|].
  apply (bulk_handler_never_ends_on_nonpositive_batch_size
           no_string no_string PEERINGDB_OBJECTS (Some "key") always_resolves
           "org" org_config
           {| operation := bulk_create; items := [item_a]; batch_size := 0 |} 5 []).
  - cbn. lia.
  - discriminate.
Defined.

(** ** The client and the handlers *)

(** X8. [handleError] leaves an error that has a message and a status as it
    is, never returns an empty message, and applied twice does what it does
    applied once. *)
Theorem handleError_normalises_once (error : PeeringDBError) :
  message (handleError error) <> ""
  /\ (message error <> "" -> message (handleError error) = message error)
  /\ (message error <> "" -> is_Some (status error) -> handleError error = error)
  /\ handleError (handleError error) = handleError error.
Proof.
  unfold handleError.
  destruct (String.eqb (message error) "") eqn:E; cbn [negb andb].
  - apply String.eqb_eq in E. cbn. repeat split; try done; by rewrite E.
  - apply String.eqb_neq in E.
    destruct (bool_decide (is_Some (status error))) eqn:Hs; cbn.
    + rewrite (proj2 (String.eqb_neq _ _) E), Hs. cbn. done.
    + rewrite (proj2 (String.eqb_neq _ _) E). cbn. repeat split; try done.
      intros _ Hsome. by apply bool_decide_eq_false in Hs.
Qed.




(** X10. The create handler sends a payload only after it has passed
    validation: a rejected payload gives the validation error and no call;
    an accepted one, with an API key, gives exactly one POST to the
    endpoint of the type, whose body is the validated payload and not the
    raw arguments. *)
Theorem create_handler_posts_validated_payload
        (emailRegex_test url_ok : string -> bool)
        (objects : gmap string PeeringDBObjectConfig)
        (apiKey : option string)
        (axios : list Event -> HttpRequest -> PeeringDBError + value)
        (objectType : string) (config : PeeringDBObjectConfig)
        (args : gmap string value) (h : list Event) :
  hasApiKey apiKey = true ->
  match validateObjectData emailRegex_test url_ok objects objectType args create with
  | inl e =>
      create_handler emailRegex_test url_ok objects apiKey axios objectType config args h
      = (inr (ToolError e), h)
  | inr validatedData =>
      let request := HttpPost (endpoint config) validatedData in
      create_handler emailRegex_test url_ok objects apiKey axios objectType config args h
      = (inr (match axios h request with
              | inr responseData => ToolOk responseData
              | inl error => ToolError (Rejected (handleError error))
              end),
         h ++ [Http request])
  end.
Proof.
  intros Hkey. unfold create_handler, try_catch. unfold bind at 1.
  destruct (validateObjectData _ _ _ _ args create) as [e|v]; cbn; [done|].
  unfold bind, client_post, validateApiKey, call. rewrite Hkey. cbn.
  by destruct (axios h (HttpPost (endpoint config) v)).
Qed.

Lemma create_handler_posts_validated_payload_witness :
  hasApiKey (Some "key") = true
  /\ create_handler no_string no_string PEERINGDB_OBJECTS (Some "key") always_resolves
                    "org" org_config
                    (<["name" := VString "X"]> {["bogus" := VString "y"]}) []
     = (inr (ToolOk VNull),
        [Http (HttpPost "org" (VObject {["name" := VString "X"]}))]).
Proof.
  split; [reflexivity|].
  pose proof (create_handler_posts_validated_payload
                no_string no_string PEERINGDB_OBJECTS (Some "key") always_resolves
                "org" org_config
                (<["name" := VString "X"]> {["bogus" := VString "y"]}) [] eq_refl) as H.
  assert (Hv : validateObjectData no_string no_string PEERINGDB_OBJECTS "org"
                 (<["name" := VString "X"]> {["bogus" := VString "y"]}) create
               = inr (VObject {["name" := VString "X"]})) by (vm_compute; reflexivity).
  rewrite Hv in H. exact H.
Defined.


(** ** Registration and dispatch *)

Lemma get_field_app {A} (k : string) (l1 l2 : list (string * A)) :
  get_field k (l1 ++ l2)
  = match get_field k l1 with
    | Some v => Some v
    | None => get_field k l2
    end.
Proof.
  induction l1 as [|[k' v'] l1 IH]; [done|]. cbn. by destruct (String.eqb k' k).
Qed.

Lemma get_field_concat {A} (k : string) (g : string -> list (string * A))
      (types : list string) (T : string) :
  T ∈ types ->
  (forall T', T' <> T -> get_field k (g T') = None) ->
  get_field k (concat (List.map g types)) = get_field k (g T).
Proof.
  intros HT Hother.
  assert (Hnone : get_field k (g T) = None ->
                  forall l, get_field k (concat (List.map g l)) = None).
  { intros HN. induction l as [|T0 l IH]; [done|]. cbn. rewrite get_field_app, IH.
    destruct (decide (T0 = T)) as [->|Hne]; [by rewrite HN|by rewrite Hother]. }
  induction types as [|T0 types IH]; [by apply elem_of_nil in HT|].
  cbn. rewrite get_field_app.
  destruct (decide (T0 = T)) as [->|Hne].
  - destruct (get_field k (g T)) eqn:E; [done|]. by apply Hnone.
  - rewrite Hother by done. apply IH.
    apply elem_of_cons in HT as [?|HT]; [by subst|done].
Qed.

(** The tool of an operation that [supportsOperation] grants to a type
    of the registry: registered with the empty input shape and the handler
    of the operation for that type. *)
Lemma registerTools_supported em uo objects apiKey axios objectType config op :
  objects !! objectType = Some config ->
  supportsOperation objects objectType op = true ->
  get_field (operation_tool op objectType) (registerTools em uo objects apiKey axios)
  = Some (ObjectTool [] (operation_handler em uo objects apiKey axios
                                           op objectType config)).
Proof.
  intros Hcfg Hsup. unfold registerTools.
  rewrite (get_field_concat _ _ _ objectType).
  - unfold registerObjectTools. rewrite Hcfg.
    destruct op; rewrite Hsup;
      destruct (supportsOperation objects objectType POST);
      destruct (supportsOperation objects objectType PUT);
      destruct (supportsOperation objects objectType PATCH);
      destruct (supportsOperation objects objectType DELETE);
      try discriminate Hsup;
      cbn; rewrite ?String.eqb_refl; reflexivity.
  - unfold getObjectTypes. apply list_elem_of_fmap. exists (objectType, config).
    split; [done|]. by apply elem_of_map_to_list.
  - intros T' Hne.
    destruct (registerObjectTools em uo objects apiKey axios T')
      as [e|tools] eqn:Hreg; [done|].
    apply get_field_None. intros [n t] Hin Heq. cbn in Heq. subst n.
    destruct (registerObjectTools_names _ _ _ _ _ _ _ _ _ Hreg Hin)
      as [Hbulk|(op' & _ & Hname)].
    + by apply operation_tool_not_bulk in Hbulk.
    + apply operation_tool_inj in Hname as [_ ->]. done.
Qed.

(** The host's parse of the arguments against the empty shape: an object
    without properties, whatever the arguments. *)
Lemma parse_empty_shape em uo (args : gmap string value) :
  Zod.parse em uo (Zod.object_ []) (VObject args) = inr (VObject ∅).
Proof. reflexivity. Qed.

(** A call of such a tool runs the handler on the empty object. *)
Lemma callTool_supported em uo objects apiKey axios objectType config op args h :
  objects !! objectType = Some config ->
  supportsOperation objects objectType op = true ->
  callTool em uo objects apiKey axios (operation_tool op objectType) args h
  = match operation_handler em uo objects apiKey axios op objectType config ∅ h with
    | (inr result, h') => (Returned result, h')
    | (inl e, h') => (Returned (ToolError e), h')
    end.
Proof.
  intros Hcfg Hsup. unfold callTool.
  by rewrite (registerTools_supported _ _ _ _ _ _ config), parse_empty_shape.
Qed.

(** X12. The converse of the registration gate: for a type of the registry and
    an operation that [supportsOperation] grants, the tool of that operation
    is registered under the type's name, with the empty input shape and the
    handler of that operation for that type; and a call of it runs that
    handler on the object the host's parse of the arguments against that
    shape returns, which is the empty object, whatever the arguments of the
    call are. (The registry is one whose names do not meet, in lower case,
    the names every object inherits, so that the registration runs to its
    end.) *)
Theorem supported_operation_reaches_its_handler
        (emailRegex_test url_ok : string -> bool)
        (objects : gmap string PeeringDBObjectConfig)
        (apiKey : option string)
        (axios : list Event -> HttpRequest -> PeeringDBError + value)
        (objectType : string) (config : PeeringDBObjectConfig) (op : WriteOperation) :
  no_inherited_names objects = true ->
  objects !! objectType = Some config ->
  supportsOperation objects objectType op = true ->
  get_field (operation_tool op objectType)
            (registerTools emailRegex_test url_ok objects apiKey axios)
  = Some (ObjectTool [] (operation_handler emailRegex_test url_ok objects apiKey axios
                                           op objectType config))
  /\ forall args h,
      callTool emailRegex_test url_ok objects apiKey axios
               (operation_tool op objectType) args h
      = match operation_handler emailRegex_test url_ok objects apiKey axios
                                op objectType config ∅ h with
        | (inr result, h') => (Returned result, h')
        | (inl e, h') => (Returned (ToolError e), h')
        end.
Proof.
  intros _ Hcfg Hsup. split.
  - by apply registerTools_supported.
  - intros args h. by apply callTool_supported.
Qed.

Lemma supported_operation_reaches_its_handler_witness :
  no_inherited_names sample_registry = true
  /\ sample_registry !! "poc" = Some sample_config
  /\ supportsOperation sample_registry "poc" PATCH = true
  /\ get_field "peeringdb_patch_poc"
               (registerTools no_string no_string sample_registry (Some "key")
                              always_resolves)
     = Some (ObjectTool [] (operation_handler no_string no_string sample_registry
                              (Some "key") always_resolves PATCH "poc" sample_config))
  /\ callTool no_string no_string sample_registry (Some "key") always_resolves
              "peeringdb_patch_poc" {["id" := VNumber (inject_Z 7)]} []
     = match operation_handler no_string no_string sample_registry (Some "key")
                               always_resolves PATCH "poc" sample_config ∅ [] with
       | (inr result, h') => (Returned result, h')
       | (inl e, h') => (Returned (ToolError e), h')
       end.
Proof.
  split; [reflexivity|]. split; [reflexivity|]. split; [reflexivity|].
  destruct (supported_operation_reaches_its_handler
              no_string no_string sample_registry (Some "key") always_resolves
              "poc" sample_config PATCH) as [Hget Hcall].
  - reflexivity.
  - reflexivity.
  - reflexivity.
  - split; [exact Hget|]. exact (Hcall {["id" := VNumber (inject_Z 7)]} []).
Defined.

(** ** Names of object types *)

Lemma lower_char_idempotent (c : ascii) :
  JsString.lower_char (JsString.lower_char c) = JsString.lower_char c.
Proof. destruct c as [[] [] [] [] [] [] [] []]; reflexivity. Qed.

Lemma toLowerCase_idempotent (s : string) :
  JsString.toLowerCase (JsString.toLowerCase s) = JsString.toLowerCase s.
Proof.
  induction s as [|c s IH]; [done|]. cbn. by rewrite lower_char_idempotent, IH.
Qed.

(** The names and the descriptors of the registry of the repository: every
    name is in lower case and every descriptor grants the four operations. *)
Lemma PEERINGDB_OBJECTS_names (objectType : string) (config : PeeringDBObjectConfig) :
  PEERINGDB_OBJECTS !! objectType = Some config ->
  JsString.toLowerCase objectType = objectType
  /\ forall op, bool_decide (op ∈ writeOperations config) = true.
Proof.
  intros Hin%PEERINGDB_OBJECTS_lookup.
  assert (Hall : Forall (fun kv =>
                           String.eqb (JsString.toLowerCase (fst kv)) (fst kv)
                           && forallb (fun op => bool_decide (op ∈ writeOperations (snd kv)))
                                      [POST; PUT; PATCH; DELETE] = true)
                        PEERINGDB_OBJECTS_entries) by (repeat constructor).
  rewrite Forall_forall in Hall. specialize (Hall _ Hin). cbn [fst snd] in Hall.
  apply andb_prop in Hall as [H1%String.eqb_eq H2]. split; [done|].
  intros op. rewrite forallb_forall in H2. apply H2. destruct op; cbn; tauto.
Qed.

(** X13. In the registry of the repository every type supports every write
    operation: the four tools of each type are all registered, and the
    case of an excluded operation does not arise. *)
Theorem registry_supports_every_operation
        (objectType : string) (config : PeeringDBObjectConfig) (op : WriteOperation) :
  PEERINGDB_OBJECTS !! objectType = Some config ->
  supportsOperation PEERINGDB_OBJECTS objectType op = true.
Proof.
  intros Hcfg. destruct (PEERINGDB_OBJECTS_names _ _ Hcfg) as [Hlow Hops].
  unfold supportsOperation, getObjectConfig. rewrite Hlow, Hcfg. apply Hops.
Qed.

Lemma registry_supports_every_operation_witness :
  PEERINGDB_OBJECTS !! "ixpfx" = Some ixpfx_config
  /\ supportsOperation PEERINGDB_OBJECTS "ixpfx" DELETE = true.
Proof.
  split; [reflexivity|].
  apply (registry_supports_every_operation "ixpfx" ixpfx_config DELETE). reflexivity.
Defined.

(** X14. Names are compared in two ways. [validateObjectType] tests the
    name in lower case, so it answers for [NET] as for [net];
    [createObjectSchema] and [validateObjectData] look the name up as
    written, so with the registry of the repository a name that is not in
    lower case (and is no inherited property name) is an unknown type to
    them. *)
Theorem type_name_case_is_handled_two_ways
        (emailRegex_test url_ok : string -> bool)
        (objectType : string) (op : Operation) (data : gmap string value) :
  JsString.toLowerCase objectType <> objectType ->
  includes_str objectType Object_prototype_properties = false ->
  validateObjectType PEERINGDB_OBJECTS objectType
  = validateObjectType PEERINGDB_OBJECTS (JsString.toLowerCase objectType)
  /\ createObjectSchema PEERINGDB_OBJECTS objectType op = inl (UnknownObjectType objectType)
  /\ validateObjectData emailRegex_test url_ok PEERINGDB_OBJECTS objectType data op
     = inl (UnknownObjectType objectType).
Proof.
  intros Hcase _.
  assert (Hnone : PEERINGDB_OBJECTS !! objectType = None).
  { destruct (PEERINGDB_OBJECTS !! objectType) as [config|] eqn:Hcfg; [|done].
    by destruct (PEERINGDB_OBJECTS_names _ _ Hcfg). }
  unfold validateObjectType, validateObjectData, createObjectSchema.
  rewrite toLowerCase_idempotent, Hnone. done.
Qed.

Lemma type_name_case_is_handled_two_ways_witness :
  JsString.toLowerCase "NET" <> "NET"
  /\ includes_str "NET" Object_prototype_properties = false
  /\ validateObjectType PEERINGDB_OBJECTS "NET" = true
  /\ validateObjectData no_string no_string PEERINGDB_OBJECTS "NET" item_a create
     = inl (UnknownObjectType "NET").
Proof.
  split; [discriminate|]. split; [reflexivity|]. split; [reflexivity|].
  apply (type_name_case_is_handled_two_ways no_string no_string "NET" create item_a).
  - discriminate.
  - reflexivity.
Defined.

(** ** Query strings *)

Lemma parseResourceParams_other_acc key searchParams :
  includes_str key ["limit"; "skip"; "depth"; "since"] = false ->
  key <> "__proto__" ->
  forall acc : gmap string ParamValue,
    fold_left
      (fun params kv =>
         let key := fst kv in
         let value := snd kv in
         if includes_str key ["limit"; "skip"; "depth"; "since"] then
           match Js.parseInt value with
           | Some numValue => assign key (PNumber numValue) params
           | None => params
           end
         else if JsString.endsWith "__in" key then
           assign key (PList (List.map Js.trim (JsString.split_on "," value))) params
         else assign key (PString value) params)
      searchParams acc !! key
    = match last (occurrences key searchParams) with
      | Some value => Some (stored_value key value)
      | None => acc !! key
      end.
Proof.
  intros Hkey Hproto. induction searchParams as [|[k v] sp IH]; intros acc; [done|].
  cbn [fold_left]. rewrite IH. unfold occurrences. cbn [omap list_omap fst snd].
  fold (occurrences key sp).
  destruct (decide (k = key)) as [->|Hne].
  - rewrite Hkey, last_cons. destruct (last (occurrences key sp)); [done|].
    unfold stored_value. destruct (JsString.endsWith "__in" key);
      by rewrite lookup_assign_eq.
  - destruct (last (occurrences key sp)); [done|].
    destruct (includes_str k _).
    + destruct (Js.parseInt v); [by rewrite lookup_assign_ne|done].
    + destruct (JsString.endsWith "__in" k); by rewrite lookup_assign_ne.
Qed.

(** X15. For a key that is not one of [limit], [skip], [depth], [since]
    (nor [__proto__], to which an assignment stores nothing), the query
    handed to the client holds the value of the last occurrence of the key:
    as a list of trimmed pieces when the key ends in [__in], as the raw
    string otherwise; a key that does not occur is absent. *)
Theorem query_keeps_last_value_of_a_key
        (key : string) (searchParams : list (string * string)) :
  includes_str key ["limit"; "skip"; "depth"; "since"] = false ->
  String.eqb key "__proto__" = false ->
  resourceQuery searchParams !! key
  = stored_value key <$> last (occurrences key searchParams).
Proof.
  intros Hkey Hproto. unfold resourceQuery.
  assert (Hne : key <> "__proto__") by (intros ->; by vm_compute in Hproto).
  rewrite validateQueryParams_lookup by done.
  unfold parseResourceParams. rewrite parseResourceParams_other_acc by done.
  by destruct (last _).
Qed.

Lemma query_keeps_last_value_of_a_key_witness :
  includes_str "asn__in" ["limit"; "skip"; "depth"; "since"] = false
  /\ String.eqb "asn__in" "__proto__" = false
  /\ resourceQuery [("asn__in", "1"); ("asn__in", "2, 3")] !! "asn__in"
     = Some (PList ["2"; "3"]).
Proof.
  split; [reflexivity|]. split; [reflexivity|].
  apply (query_keeps_last_value_of_a_key "asn__in" [("asn__in", "1"); ("asn__in", "2, 3")]);
    reflexivity.
Defined.

Lemma append_nil_l (u : string) : "" +:+ u = u.
Proof. reflexivity. Qed.

Lemma append_cons (c : ascii) (s u : string) : String c s +:+ u = String c (s +:+ u).
Proof. reflexivity. Qed.

Lemma digits_prefix_app (s u : string) (acc : Z) (seen : bool) (n : Z) :
  starts_with_digit u = false ->
  Js.digits_prefix acc seen s = Some n ->
  Js.digits_prefix acc seen (s +:+ u) = Some n.
Proof.
  intros Hu. revert acc seen. induction s as [|c s IH]; intros acc seen Hs.
  - rewrite append_nil_l. cbn [Js.digits_prefix] in Hs |- *. destruct seen; [|done].
    destruct u as [|c u]; [done|].
    cbn [starts_with_digit] in Hu. cbn [Js.digits_prefix]. by rewrite Hu.
  - rewrite append_cons. cbn [Js.digits_prefix] in Hs |- *.
    destruct (Js.is_digit c); [by apply IH|done].
Qed.

Lemma trimStart_app (s u : string) :
  Js.trimStart s <> "" -> Js.trimStart (s +:+ u) = Js.trimStart s +:+ u.
Proof.
  induction s as [|c s IH]; [done|]. rewrite append_cons. cbn [Js.trimStart].
  destruct (Js.is_white_space c); [exact IH|done].
Qed.

(** [parseInt] stops at the first character that is no digit: once a
    string parses, whatever is appended to it, unless it begins with a
    digit, does not change the result. So [limit=5abc] is read as 5. *)
Theorem parseInt_ignores_what_follows_the_digits (s u : string) (n : Js.Number) :
  Js.parseInt s = Some n ->
  starts_with_digit u = false ->
  Js.parseInt (s +:+ u) = Some n.
Proof.
  unfold Js.parseInt. intros Hs Hu.
  assert (Hne : Js.trimStart s <> "").
  { intros E. rewrite E in Hs. by cbn in Hs. }
  rewrite trimStart_app by done.
  destruct (Js.trimStart s) as [|c t]; [done|].
  rewrite append_cons.
  assert (Hgen : forall (neg : bool) (rest : string),
             match Js.digits_prefix 0 false rest with
             | Some m => Some (Js.to_double (if neg then - m else m))
             | None => None
             end = Some n ->
             match Js.digits_prefix 0 false (rest +:+ u) with
             | Some m => Some (Js.to_double (if neg then - m else m))
             | None => None
             end = Some n).
  { intros neg rest H.
    destruct (Js.digits_prefix 0 false rest) as [m|] eqn:E; [|done].
    by rewrite (digits_prefix_app rest u 0 false m Hu E). }
  destruct (Ascii.eqb c "-"); [exact (Hgen true t Hs)|].
  destruct (Ascii.eqb c "+"); [exact (Hgen false t Hs)|].
  rewrite <- append_cons. exact (Hgen false (String c t) Hs).
Qed.

Lemma parseInt_ignores_what_follows_the_digits_witness :
  Js.parseInt " -5" = Some (Js.Finite (-5))
  /\ starts_with_digit "abc" = false
  /\ Js.parseInt (" -5" +:+ "abc") = Some (Js.Finite (-5)).
Proof.
  split; [reflexivity|]. split; [reflexivity|].
  apply (parseInt_ignores_what_follows_the_digits " -5" "abc" (Js.Finite (-5)));
    reflexivity.
Defined.

Lemma prefix_drop (p s : string) :
  String.prefix p s = true -> s = p +:+ JsString.drop (String.length p) s.
Proof.
  revert s. induction p as [|a p IH]; intros s H; [done|].
  destruct s as [|b s]; [done|].
  change (String.prefix (String a p) (String b s))
    with (if ascii_dec a b then String.prefix p s else false) in H.
  destruct (ascii_dec a b) as [->|]; [|done].
  rewrite append_cons. cbn [String.length JsString.drop]. f_equal. by apply IH.
Qed.

Lemma prefix_append (p s : string) : String.prefix p (p +:+ s) = true.
Proof.
  induction p as [|a p IH]; [by destruct s|].
  rewrite append_cons.
  change (String.prefix (String a p) (String a (p +:+ s)))
    with (if ascii_dec a a then String.prefix p (p +:+ s) else false).
  by destruct (ascii_dec a a).
Qed.

Lemma modifierSplit_sound (key a b : string) :
  modifierSplit key = Some (a, b) ->
  key = a +:+ "__" +:+ b /\ a <> "" /\ b <> "".
Proof.
  revert a. induction key as [|c key IH]; intros a; [done|]. cbn [modifierSplit].
  destruct (modifierSplit key) as [[a' b']|].
  - intros [= <- <-]. destruct (IH a' eq_refl) as (-> & _ & Hb). done.
  - destruct (String.prefix "__" key && negb (String.eqb (JsString.drop 2 key) ""))
      eqn:E; [|done].
    intros [= <- <-]. apply andb_prop in E as [Hp Hr].
    apply negb_true_iff, String.eqb_neq in Hr.
    apply prefix_drop in Hp. change (String.length "__") with 2%nat in Hp.
    split; [|done]. rewrite append_cons, append_nil_l. by f_equal.
Qed.

Lemma modifierSplit_complete (a b : string) :
  a <> "" -> b <> "" -> is_Some (modifierSplit (a +:+ "__" +:+ b)).
Proof.
  intros Ha Hb. induction a as [|c a IH]; [done|].
  rewrite append_cons. cbn [modifierSplit].
  destruct (modifierSplit (a +:+ "__" +:+ b)) as [[a' b']|] eqn:E; [done|].
  destruct a as [|c' a].
  - rewrite append_nil_l, prefix_append.
    change (JsString.drop 2 ("__" +:+ b)) with b.
    apply String.eqb_neq in Hb. by rewrite Hb.
  - exfalso. assert (is_Some (@None (string * string))) as [? ?]; [|done].
    by apply IH.
Qed.

(** The pattern [/^(.+)__(.+)$/] of [validateQueryParams] matches exactly
    the keys that are a non-empty field, two underscores and a non-empty
    modifier, with no line terminator; the two groups give the key back. *)
Theorem modifierMatch_recognises_field_modifier_keys (key : string) :
  (forall a b, modifierMatch key = Some (a, b) ->
               key = a +:+ "__" +:+ b /\ a <> "" /\ b <> "")
  /\ (forall a b, key = a +:+ "__" +:+ b -> a <> "" -> b <> "" ->
                  forallb (fun c => negb (is_line_terminator c))
                          (list_ascii_of_string key) = true ->
                  is_Some (modifierMatch key)).
Proof.
  unfold modifierMatch. split.
  - intros a b. destruct (forallb _ _); [|done]. apply modifierSplit_sound.
  - intros a b -> Ha Hb ->. by apply modifierSplit_complete.
Qed.

(** ** Numeric field rules *)

(** X17. The numeric rules accept exactly the intended numbers: [latitude] the
    numbers from -90 to 90, [longitude] those from -180 to 180, and [asn]
    the positive integers; an accepted number comes back unchanged. *)
Theorem numeric_field_rules_accept_their_ranges
        (emailRegex_test url_ok : string -> bool) (isRequired : bool) (q : Q) :
  (Zod.parse emailRegex_test url_ok (createFieldSchema "latitude" isRequired) (VNumber q)
   = inr (VNumber q)
   <-> (inject_Z (-90) <= q /\ q <= inject_Z 90)%Q)
  /\ (Zod.parse emailRegex_test url_ok (createFieldSchema "longitude" isRequired) (VNumber q)
      = inr (VNumber q)
      <-> (inject_Z (-180) <= q /\ q <= inject_Z 180)%Q)
  /\ (Zod.parse emailRegex_test url_ok (createFieldSchema "asn" isRequired) (VNumber q)
      = inr (VNumber q)
      <-> (0 < q)%Q /\ Zod.isInteger q = true).
Proof.
  assert (Hrange : forall lo hi d,
             Zod.parse emailRegex_test url_ok
                       (Zod.ZodNumber [Zod.ck_min (inject_Z lo) true;
                                       Zod.ck_max (inject_Z hi) true] d) (VNumber q)
             = inr (VNumber q)
             <-> (inject_Z lo <= q /\ q <= inject_Z hi)%Q).
  { intros lo hi d. unfold Zod.parse. cbn [Zod._parse omap list_omap].
    unfold Zod.number_check_issue, Zod.Qlt_bool.
    destruct (Qle_bool (inject_Z lo) q) eqn:E1; destruct (Qle_bool q (inject_Z hi)) eqn:E2;
      cbn; rewrite <- !Qle_bool_iff, E1, E2; split; intros H; try done; by destruct H. }
  split; [|split].
  - apply (Hrange (-90) 90).
  - apply (Hrange (-180) 180).
  - change (createFieldSchema "asn" isRequired)
      with (Zod.ZodNumber [Zod.ck_min 0 false; Zod.ck_int] (Some "Autonomous System Number")).
    unfold Zod.parse. cbn [Zod._parse omap list_omap].
    unfold Zod.number_check_issue.
    destruct (Qle_bool q 0) eqn:E1; destruct (Zod.isInteger q) eqn:E2; cbn.
    + split; [done|]. intros [H _]. apply Qle_bool_iff in E1. by apply Qlt_not_le in H.
    + split; [done|]. intros [H _]. apply Qle_bool_iff in E1. by apply Qlt_not_le in H.
    + split; [|done]. intros _. split; [|done].
      apply Qnot_le_lt. intros Hle%Qle_bool_iff. congruence.
    + split; [done|]. by intros [_ H].
Qed.

(** ** Resource identifiers, continued *)

Lemma fold_insert_last (k : string) (sp : list (string * string))
      (acc : gmap string string) :
  k <> "__proto__" ->
  fold_left (fun params kv => assign (fst kv) (snd kv) params) sp acc !! k
  = match last (occurrences k sp) with
    | Some v => Some v
    | None => acc !! k
    end.
Proof.
  intros Hproto.
  revert acc. induction sp as [|[k' v] sp IH]; intros acc; [done|].
  cbn [fold_left]. rewrite IH. unfold occurrences. cbn [omap list_omap fst snd].
  fold (occurrences k sp).
  destruct (decide (k' = k)) as [->|Hne].
  - rewrite last_cons. destruct (last (occurrences k sp)); [done|].
    by rewrite lookup_assign_eq.
  - destruct (last (occurrences k sp)); [done|]. by rewrite lookup_assign_ne.
Qed.

(** X18. What [validateResourceUri] guarantees when it returns: the first part
    of the path is ["peeringdb:"], the second is the returned type and is a
    registered name up to case, the third, if any, is the returned id, and
    the parameters are the raw strings of the query, the last occurrence of
    a key winning: nothing is coerced to a number. (The key [__proto__], to
    which an assignment stores nothing, is left out.) *)
Theorem validateResourceUri_result
        (objects : gmap string PeeringDBObjectConfig) (uri : string)
        (ref : ResourceReference string) :
  validateResourceUri objects uri = inr ref ->
  exists url,
    Js.new_URL uri = Some url
    /\ (let pathParts := List.filter (fun part => negb (String.eqb part ""))
                                     (JsString.split_on "/" (Js.pathname url)) in
        pathParts !! 0%nat = Some "peeringdb:"
        /\ pathParts !! 1%nat = Some (ref_objectType ref)
        /\ ref_id ref = pathParts !! 2%nat)
    /\ validateObjectType objects (ref_objectType ref) = true
    /\ forall k, k <> "__proto__" ->
                 ref_params ref !! k = last (occurrences k (Js.searchParams url)).
Proof.
  unfold validateResourceUri. destruct (Js.new_URL uri) as [url|]; [|done].
  set (pathParts := List.filter _ _).
  destruct ((length pathParts <? 1)%nat
            || negb (bool_decide (pathParts !! 0%nat = Some "peeringdb:"))) eqn:E; [done|].
  apply orb_false_elim in E as [_ E]. apply negb_false_iff, bool_decide_eq_true in E.
  destruct (pathParts !! 1%nat) as [objectType|] eqn:H1; [|done].
  destruct (String.eqb objectType ""); [done|].
  destruct (validateObjectType objects objectType) eqn:Hvalid; [|done]. cbn [negb].
  intros [= <-]. exists url. split; [done|]. cbn [ref_objectType ref_id ref_params].
  split; [|split; [done|]].
  - cbv zeta. fold pathParts. split; [done|]. split; [done|].
    destruct (pathParts !! 2%nat) as [s|] eqn:H2; [|done].
    assert (Hs : negb (String.eqb s "") = true).
    { apply list_elem_of_lookup_2, list_elem_of_In in H2.
      unfold pathParts in H2. by apply filter_In in H2 as [_ H2]. }
    apply negb_true_iff in Hs. by rewrite Hs.
  - intros k Hk. rewrite validateQueryParams_lookup by done.
    rewrite fold_insert_last, lookup_empty by done.
    by destruct (last _).
Qed.

Lemma validateResourceUri_result_witness :
  validateResourceUri PEERINGDB_OBJECTS "x:peeringdb:/net/123?limit=5"
  = inr {| ref_objectType := "net"; ref_id := Some "123";
           ref_params := {["limit" := "5"]} |}
  /\ exists url,
      Js.new_URL "x:peeringdb:/net/123?limit=5" = Some url
      /\ validateObjectType PEERINGDB_OBJECTS "net" = true.
Proof.
  split; [exact validateResourceUri_keeps_strings|].
  destruct (validateResourceUri_result PEERINGDB_OBJECTS "x:peeringdb:/net/123?limit=5"
              _ validateResourceUri_keeps_strings) as (url & Hurl & _ & Hvalid & _).
  exists url. by split.
Defined.

(** ** The report of a rejected call *)

(** X19. What a caller sees of a failed request, after the response interceptor
    and [handleError]. For the statuses 401, 403, 404 and 429 the message is
    the fixed text of the status and the status, data and url are kept. For
    a failure without a response the message is kept (or the stand-in text
    if it is empty) and the url of the request is lost: [handleError] builds
    a fresh object whose url it reads from a field the interceptor's object
    does not have. *)
Theorem report_of_a_rejected_call (error : AxiosError) :
  let report := handleError (responseInterceptor error) in
  (forall r,
      axios_response error = Some r ->
      bool_decide (response_status r ∈ [401; 403; 404; 429]) = true ->
      status report = Some (response_status r)
      /\ data report = response_data r
      /\ url report = axios_config_url error
      /\ message report
         = (if response_status r =? 401
            then "Authentication failed. Please check your API key."
            else if response_status r =? 403
                 then "Access forbidden. Insufficient permissions."
                 else if response_status r =? 404 then "Resource not found."
                      else "Rate limit exceeded. Please try again later."))
  /\ (axios_response error = None ->
      report = {| message := if String.eqb (axios_message error) ""
                             then "Unknown error occurred" else axios_message error;
                  status := None; data := None; url := None |}).
Proof.
  cbv zeta. split.
  - intros r Hr Hs. unfold responseInterceptor. rewrite Hr. cbn [fmap option_fmap option_map status mbind option_bind].
    apply bool_decide_eq_true in Hs.
    repeat (apply elem_of_cons in Hs as [->|Hs]); [| | | |by apply elem_of_nil in Hs];
      cbn; done.
  - intros Hr. unfold responseInterceptor, handleError. rewrite Hr. cbn.
    by rewrite andb_false_r.
Qed.

(** ** Names of the registered tools *)

Lemma registerObjectTools_kinds em uo objects apiKey axios T tools n t :
  registerObjectTools em uo objects apiKey axios T = inr tools ->
  (n, t) ∈ tools ->
  exists kind, kind ∈ ["create"; "update"; "patch"; "delete"; "bulk"]
               /\ n = tool_name kind T.
Proof.
  intros Hreg Hin.
  destruct (registerObjectTools_names _ _ _ _ _ _ _ _ _ Hreg Hin)
    as [->|(op & _ & ->)].
  - exists "bulk". split; [set_solver|done].
  - destruct (operation_tool_kind op T) as (kind & Hk & ->).
    exists kind. split; [set_solver|done].
Qed.

Lemma registerObjectTools_NoDup em uo objects apiKey axios T tools :
  registerObjectTools em uo objects apiKey axios T = inr tools ->
  NoDup (List.map fst tools).
Proof.
  unfold registerObjectTools. destruct (objects !! T) as [config|]; [|done].
  intros [= <-].
  assert (Hne : forall k1 k2,
             k1 ∈ ["create"; "update"; "patch"; "delete"; "bulk"] ->
             k2 ∈ ["create"; "update"; "patch"; "delete"; "bulk"] ->
             k1 <> k2 -> tool_name k1 T <> tool_name k2 T).
  { intros k1 k2 H1 H2 Hk Heq. by destruct (tool_name_inj k1 k2 T T H1 H2 Heq). }
  destruct (supportsOperation objects T POST), (supportsOperation objects T PUT),
    (supportsOperation objects T PATCH), (supportsOperation objects T DELETE);
    cbn [app List.map fst];
    repeat (apply NoDup_cons; split;
            [rewrite ?elem_of_cons, elem_of_nil;
             intros H; repeat (destruct H as [H|H]; [revert H; apply Hne; set_solver|]);
             done|]);
    apply NoDup_nil_2.
Qed.

(** X20. No tool name is registered twice, whatever the registry: the names of
    one type differ in their operation and those of two types in the type;
    so the host never sees a second registration of a name. *)
Theorem registered_tool_names_are_distinct
        (emailRegex_test url_ok : string -> bool)
        (objects : gmap string PeeringDBObjectConfig)
        (apiKey : option string)
        (axios : list Event -> HttpRequest -> PeeringDBError + value) :
  NoDup (List.map fst (registerTools emailRegex_test url_ok objects apiKey axios)).
Proof.
  unfold registerTools.
  assert (Hgen : forall types,
             NoDup types ->
             NoDup (List.map fst
                      (concat (List.map
                                 (fun objectType =>
                                    match registerObjectTools emailRegex_test url_ok objects
                                            apiKey axios objectType with
                                    | inr tools => tools
                                    | inl _ => []
                                    end) types)))).
  { induction types as [|T types IH]; intros Hnd; [apply NoDup_nil_2|].
    apply NoDup_cons in Hnd as [HT Hnd]. cbn [List.map concat].
    rewrite List.map_app. apply NoDup_app. split; [|split].
    - destruct (registerObjectTools _ _ _ _ _ T) as [e|tools] eqn:Hreg;
        [apply NoDup_nil_2|]. by apply (registerObjectTools_NoDup _ _ _ _ _ _ _ Hreg).
    - intros n Hn1 Hn2.
      apply list_elem_of_In, in_map_iff in Hn1 as ([n1 t1] & <- & Hin1).
      apply list_elem_of_In, in_map_iff in Hn2 as ([n2 t2] & Heq & Hin2).
      cbn in Heq. subst n2.
      apply in_concat in Hin2 as (block & Hblock & Hin2).
      apply in_map_iff in Hblock as (T' & <- & HT').
      destruct (registerObjectTools _ _ _ _ _ T) as [e|tools] eqn:Hreg; [done|].
      destruct (registerObjectTools _ _ _ _ _ T') as [e'|tools'] eqn:Hreg'; [done|].
      apply list_elem_of_In in Hin1, Hin2, HT'.
      destruct (registerObjectTools_kinds _ _ _ _ _ _ _ _ _ Hreg Hin1) as (k1 & Hk1 & E1).
      destruct (registerObjectTools_kinds _ _ _ _ _ _ _ _ _ Hreg' Hin2) as (k2 & Hk2 & E2).
      cbn in E1. rewrite E1 in E2.
      destruct (tool_name_inj _ _ _ _ Hk1 Hk2 E2) as [_ ->]. done.
    - by apply IH. }
  apply Hgen. unfold getObjectTypes. apply NoDup_fst_map_to_list.
Qed.

(** ** Numeric parameters with trailing text *)

(** X16. A numeric parameter is read by [parseInt], which stops at the first
    character that is no digit: when a value parses, the same value followed
    by any text that does not begin with a digit is stored as the same
    number. So [limit=5abc] reaches the backend as [limit = 5]. *)
Theorem numeric_parameter_ignores_trailing_text
        (key s u : string) (n : Js.Number) :
  includes_str key ["limit"; "skip"; "depth"; "since"] = true ->
  Js.parseInt s = Some n ->
  starts_with_digit u = false ->
  resourceQuery [(key, s +:+ u)] !! key = Some (PNumber n)
  /\ resourceQuery [(key, s +:+ u)] !! key = resourceQuery [(key, s)] !! key.
Proof.
  intros Hkey Hs Hu.
  pose proof (parseInt_ignores_what_follows_the_digits s u n Hs Hu) as Hsu.
  unfold resourceQuery.
  rewrite !validateQueryParams_lookup by (intros ->; by vm_compute in Hkey).
  unfold parseResourceParams. cbn [fold_left fst snd].
  rewrite Hkey, Hs, Hsu.
  by rewrite lookup_assign_eq by (intros ->; by vm_compute in Hkey).
Qed.

Lemma numeric_parameter_ignores_trailing_text_witness :
  includes_str "limit" ["limit"; "skip"; "depth"; "since"] = true
  /\ Js.parseInt "5" = Some (Js.Finite 5)
  /\ starts_with_digit "abc" = false
  /\ resourceQuery [("limit", "5" +:+ "abc")] !! "limit" = Some (PNumber (Js.Finite 5)).
Proof.
  split; [reflexivity|]. split; [reflexivity|]. split; [reflexivity|].
  apply (numeric_parameter_ignores_trailing_text "limit" "5" "abc" (Js.Finite 5));
    reflexivity.
Defined.

(** ** Calls through the host *)

(** Every descriptor of the registry of the repository has a required
    field. *)
Lemma PEERINGDB_OBJECTS_required (objectType : string) (config : PeeringDBObjectConfig) :
  PEERINGDB_OBJECTS !! objectType = Some config ->
  exists f, f ∈ requiredFields config.
Proof.
  intros Hin%PEERINGDB_OBJECTS_lookup.
  assert (Hall : Forall (fun kv => exists f, f ∈ requiredFields (snd kv))
                        PEERINGDB_OBJECTS_entries).
  { repeat constructor; eexists; cbn; by left. }
  rewrite Forall_forall in Hall. exact (Hall _ Hin).
Qed.

(** The empty object is no valid payload of a creation. *)
Lemma validateObjectData_empty_create em uo objectType config :
  PEERINGDB_OBJECTS !! objectType = Some config ->
  exists issues,
    validateObjectData em uo PEERINGDB_OBJECTS objectType ∅ create
    = inl (ValidationFailed objectType issues).
Proof.
  intros Hcfg.
  destruct (PEERINGDB_OBJECTS_required _ _ Hcfg) as [field Hreq].
  destruct (PEERINGDB_OBJECTS_fields _ _ Hcfg) as (Hdisj & _ & _).
  pose proof (required_field_schema config create field (or_introl eq_refl) Hreq
                (Hdisj _ Hreq)) as Hget.
  destruct (createFieldSchema_field_schema field true) as [Hfs Hnopt].
  destruct (field_schema_undefined em uo _ [field] Hfs Hnopt) as [c Hc].
  destruct (parse_object_missing em uo
              (objectSchemaFields config create) field (createFieldSchema field true) ∅
              {| Zod.code := c; Zod.path := [field] |})
    as (issues & Hparse & Hin).
  - by apply get_field_elem_of.
  - by rewrite lookup_empty.
  - exists issues.
    rewrite (validateObjectData_unfold _ _ _ _ config) by done. by rewrite Hparse.
Qed.

(** X21. What the tools of the write operations do when they are called
    through the host, for every type of the registry of the repository.
    They are registered with the empty input shape, so their handlers are
    given the empty object: the outcome of a call does not depend on its
    arguments; a call of the create, the update or the patch tool ends with
    the validation error and makes no backend call; and a call of the
    delete tool, with an API key, sends the one request
    [DELETE /${endpoint}/undefined]. *)
Theorem write_tools_are_handed_the_empty_object
        (emailRegex_test url_ok : string -> bool)
        (apiKey : option string)
        (axios : list Event -> HttpRequest -> PeeringDBError + value)
        (objectType : string) (config : PeeringDBObjectConfig)
        (args : gmap string value) (h : list Event) :
  PEERINGDB_OBJECTS !! objectType = Some config ->
  (forall op args',
      callTool emailRegex_test url_ok PEERINGDB_OBJECTS apiKey axios
               (operation_tool op objectType) args h
      = callTool emailRegex_test url_ok PEERINGDB_OBJECTS apiKey axios
                 (operation_tool op objectType) args' h)
  /\ (forall op, op <> DELETE ->
        exists issues,
          callTool emailRegex_test url_ok PEERINGDB_OBJECTS apiKey axios
                   (operation_tool op objectType) args h
          = (Returned (ToolError (ValidationFailed objectType issues)), h))
  /\ (hasApiKey apiKey = true ->
      callTool emailRegex_test url_ok PEERINGDB_OBJECTS apiKey axios
               (operation_tool DELETE objectType) args h
      = (Returned
           match axios h (HttpDelete (endpoint config) None) with
           | inr responseData => ToolOk responseData
           | inl error => ToolError (Rejected (handleError error))
           end,
         h ++ [Http (HttpDelete (endpoint config) None)])).
Proof.
  intros Hcfg.
  assert (Hsup : forall op, supportsOperation PEERINGDB_OBJECTS objectType op = true).
  { intros op. destruct (PEERINGDB_OBJECTS_names _ _ Hcfg) as [Hlow Hops].
    unfold supportsOperation, getObjectConfig. rewrite Hlow, Hcfg. apply Hops. }
  split; [|split].
  - intros op args'. by rewrite !(callTool_supported _ _ _ _ _ _ config).
  - intros op Hop. rewrite (callTool_supported _ _ _ _ _ _ config) by done.
    destruct op; [| | |done]; cbn [operation_handler].
    + destruct (validateObjectData_empty_create emailRegex_test url_ok objectType config
                  Hcfg) as [issues Hv].
      exists issues. unfold create_handler, try_catch, bind. by rewrite Hv.
    + destruct (validateObjectData_without_id emailRegex_test url_ok objectType config
                  update (delete "id" ∅) Hcfg (or_introl eq_refl)
                  (lookup_delete_eq ∅ "id")) as (issues & Hv & _).
      exists issues. unfold update_handler, try_catch, bind. by rewrite Hv.
    + destruct (validateObjectData_without_id emailRegex_test url_ok objectType config
                  patch (delete "id" ∅) Hcfg (or_intror eq_refl)
                  (lookup_delete_eq ∅ "id")) as (issues & Hv & _).
      exists issues. unfold patch_handler, try_catch, bind. by rewrite Hv.
  - intros Hkey. rewrite (callTool_supported _ _ _ _ _ _ config) by done.
    cbn [operation_handler].
    unfold delete_handler, try_catch, bind, client_delete, validateApiKey, call.
    rewrite Hkey, lookup_empty. cbn.
    by destruct (axios h (HttpDelete (endpoint config) None)).
Qed.

Lemma write_tools_are_handed_the_empty_object_witness :
  PEERINGDB_OBJECTS !! "poc" = Some poc_config
  /\ hasApiKey (Some "key") = true
  /\ callTool no_string no_string PEERINGDB_OBJECTS (Some "key") always_resolves
              "peeringdb_delete_poc" {["id" := VNumber (inject_Z 7)]} []
     = (Returned (ToolOk VNull), [Http (HttpDelete "poc" None)]).
Proof.
  split; [reflexivity|]. split; [reflexivity|].
  destruct (write_tools_are_handed_the_empty_object
              no_string no_string (Some "key") always_resolves "poc" poc_config
              {["id" := VNumber (inject_Z 7)]} []) as (_ & _ & Hdelete).
  - reflexivity.
  - exact (Hdelete eq_refl).
Defined.

(** X22. The test made when the tools are registered reads the descriptor
    found under the lower-cased name, not the descriptor of the type. In a
    registry with the names [NET] and [net], where the descriptor of [NET]
    grants creation alone and that of [net] grants deletion, the delete
    tool of [NET] is registered, and a call of it sends a DELETE to the
    endpoint of [NET]. *)
Theorem registration_reads_the_lower_cased_descriptor :
  no_inherited_names mixed_case_registry = true
  /\ mixed_case_registry !! "NET" = Some capitals_config
  /\ bool_decide (DELETE ∈ writeOperations capitals_config) = false
  /\ supportsOperation mixed_case_registry "NET" DELETE = true
  /\ get_field "peeringdb_delete_NET"
               (registerTools no_string no_string mixed_case_registry (Some "key")
                              always_resolves)
     = Some (ObjectTool [] (delete_handler (Some "key") always_resolves
                                           "NET" capitals_config))
  /\ callTool no_string no_string mixed_case_registry (Some "key") always_resolves
              "peeringdb_delete_NET" {["id" := VNumber (inject_Z 7)]} []
     = (Returned (ToolOk VNull), [Http (HttpDelete "NET" None)]).
Proof.
  assert (Hcfg : mixed_case_registry !! "NET" = Some capitals_config) by reflexivity.
  assert (Hsup : supportsOperation mixed_case_registry "NET" DELETE = true)
    by reflexivity.
  split; [reflexivity|].
  split; [exact Hcfg|]. split; [reflexivity|]. split; [exact Hsup|]. split.
  - exact (registerTools_supported no_string no_string mixed_case_registry (Some "key")
             always_resolves "NET" capitals_config DELETE Hcfg Hsup).
  - exact (callTool_supported no_string no_string mixed_case_registry (Some "key")
             always_resolves "NET" capitals_config DELETE
             {["id" := VNumber (inject_Z 7)]} [] Hcfg Hsup).
Qed.
